(** * PandoraPFA: ordered calo hit lists, track manager lists and
      fragment removal helpers

    A shallow embedding of
    - [src/Objects/OrderedCaloHitList.cc],
    - [include/Managers/TrackManager.h] (the inline member functions),
    - [src/Helpers/FragmentRemovalHelper.cc],
    together with the properties the specification states about them.

    Pointers ([CaloHit *], [Track *], [const Algorithm *]) are modelled by
    their addresses, [unsigned int] by [N] with the wrap-around written out
    where the code does arithmetic, [std::map] by [gmap], [std::set] by
    [gset], [std::string] by [string]. Output parameters (C++ references)
    are modelled by passing their value in and returning the value they hold
    when the function returns. *)

From Stdlib Require Import NArith QArith.
From stdpp Require Import gmap strings list fin_maps sorting.

Local Open Scope N_scope.

(** ** Status codes *)

(** Modelled from the spec: [Pandora/StatusCodes.h] is not part of the
    sources; these are the result kinds of section 7 of the specification,
    under the names the code uses for them. *)
Inductive StatusCode : Set :=
  | STATUS_CODE_SUCCESS
  | STATUS_CODE_FAILURE
  | STATUS_CODE_NOT_FOUND
  | STATUS_CODE_NOT_INITIALIZED
  | STATUS_CODE_ALREADY_PRESENT
  | STATUS_CODE_INVALID_PARAMETER.

Global Instance StatusCode_eq_dec : EqDecision StatusCode.
Proof. solve_decision. Defined.

(** [PANDORA_RETURN_RESULT_IF(StatusCode1, Operator, Command)] with the
    operator [!=]: run the command, return its status when it differs from
    [StatusCode1], go on otherwise. The macro lives in the absent
    [StatusCodes.h]; this is its use at every call site of the sources. *)
Definition PANDORA_RETURN_RESULT_IF_ne {S : Type} (StatusCode1 : StatusCode)
    (Command : StatusCode * S) (rest : S → StatusCode * S) : StatusCode * S :=
  let statusCode := Command.1 in
  if bool_decide (statusCode ≠ StatusCode1) then (statusCode, Command.2)
  else rest Command.2.

(** [PANDORA_RETURN_RESULT_IF_AND_IF(StatusCode1, StatusCode2, Operator,
    Command)] with the operator [!=]: return the status of the command only
    when it differs from both codes. *)
Definition PANDORA_RETURN_RESULT_IF_AND_IF_ne {S : Type}
    (StatusCode1 StatusCode2 : StatusCode)
    (Command : StatusCode * S) (rest : S → StatusCode * S) : StatusCode * S :=
  let statusCode := Command.1 in
  if bool_decide (statusCode ≠ StatusCode1) && bool_decide (statusCode ≠ StatusCode2)
  then (statusCode, Command.2)
  else rest Command.2.

(** ** Containers of the standard library, as the code uses them *)

(** A [CaloHit *] is the address of the hit, a [PseudoLayer] an
    [unsigned int]. *)
Abbreviation CaloHitPtr := N (only parsing).
Abbreviation PseudoLayer := N (only parsing).

(** Modelled from the spec: [CaloHitList] is declared in the absent
    [Pandora/PandoraInternal.h]; the specification calls a layer bucket a
    set of hit references, and the code uses it through [insert(..).second],
    [find], [erase], [empty] and iteration, the interface of
    [std::set<CaloHit *>]. *)
Abbreviation CaloHitList := (gset N) (only parsing).

(** [OrderedCaloHitList] is a [std::map<PseudoLayer, CaloHitList *>]; each
    bucket is allocated by [AddCaloHit] and owned by one map entry, so the
    map is modelled with the buckets as its values. *)
Abbreviation OrderedCaloHitList := (gmap N (gset N)) (only parsing).

Module StdSet.
(** [s.insert(x)]: the set afterwards, and the [.second] of the result. *)
Definition insert (s : gset N) (x : N) : gset N * bool :=
  (s ∪ {[x]}, bool_decide (x ∉ s)).

(** [s.find(x) != s.end()] *)
Definition find (s : gset N) (x : N) : bool := bool_decide (x ∈ s).

(** [s.erase(iterator to x)] *)
Definition erase (s : gset N) (x : N) : gset N := s ∖ {[x]}.

Definition empty (s : gset N) : bool := bool_decide (s = ∅).

(** Iteration from [begin()] to [end()]: ascending order of the keys. *)
Definition iter (s : gset N) : list N := merge_sort N.le (elements s).
End StdSet.

Module StdMap.
Section Map.
Context {V : Type}.

(** [m.insert(value_type(k, v))]: the map afterwards, and the [.second]
    of the result; an existing entry is kept. *)
Definition insert (m : gmap N V) (k : N) (v : V) : gmap N V * bool :=
  match m !! k with
  | Some _ => (m, false)
  | None => (<[k := v]> m, true)
  end.

(** [m.clear()] *)
Definition clear (m : gmap N V) : gmap N V := ∅.

(** [m.empty()] *)
Definition empty (m : gmap N V) : bool := bool_decide (size m = 0%nat).

Definition key_le (e1 e2 : N * V) : Prop := e1.1 ≤ e2.1.

Global Instance key_le_dec : RelDecision key_le.
Proof. intros e1 e2. unfold key_le. apply _. Defined.

(** Iteration from [begin()] to [end()]: ascending order of the keys. *)
Definition iter (m : gmap N V) : list (N * V) :=
  merge_sort key_le (map_to_list m).
End Map.
End StdMap.

(** ** OrderedCaloHitList *)

Definition OrderedCaloHitList_new : OrderedCaloHitList := ∅.

Definition AddCaloHit (this : OrderedCaloHitList) (pCaloHit : CaloHitPtr)
    (pseudoLayer : PseudoLayer) : StatusCode * OrderedCaloHitList :=
  match this !! pseudoLayer with
  | None =>
      let '(pCaloHitList, inserted) := StdSet.insert ∅ pCaloHit in
      if negb inserted then (STATUS_CODE_FAILURE, this)
      else
        let '(this', inserted') := StdMap.insert this pseudoLayer pCaloHitList in
        if negb inserted' then (STATUS_CODE_FAILURE, this')
        else (STATUS_CODE_SUCCESS, this')
  | Some bucket =>
      let '(bucket', inserted) := StdSet.insert bucket pCaloHit in
      let this' := <[pseudoLayer := bucket']> this in
      if negb inserted then (STATUS_CODE_ALREADY_PRESENT, this')
      else (STATUS_CODE_SUCCESS, this')
  end.

Definition RemoveCaloHit (this : OrderedCaloHitList) (pCaloHit : CaloHitPtr)
    (pseudoLayer : PseudoLayer) : StatusCode * OrderedCaloHitList :=
  match this !! pseudoLayer with
  | None => (STATUS_CODE_NOT_FOUND, this)
  | Some bucket =>
      if negb (StdSet.find bucket pCaloHit) then (STATUS_CODE_NOT_FOUND, this)
      else
        let bucket' := StdSet.erase bucket pCaloHit in
        if StdSet.empty bucket'
        then (STATUS_CODE_SUCCESS, delete pseudoLayer this)
        else (STATUS_CODE_SUCCESS, <[pseudoLayer := bucket']> this)
  end.

(** The output parameter [pCaloHitList] points to a bucket; it is modelled
    by the contents of the bucket it points to. *)
Definition GetCaloHitsInPseudoLayer (this : OrderedCaloHitList)
    (pseudoLayer : PseudoLayer) (pCaloHitList : CaloHitList)
    : StatusCode * CaloHitList :=
  match this !! pseudoLayer with
  | None => (STATUS_CODE_NOT_FOUND, pCaloHitList)
  | Some bucket => (STATUS_CODE_SUCCESS, bucket)
  end.

(** The buckets are deleted one by one, then the map is cleared. *)
Definition Reset (this : OrderedCaloHitList) : StatusCode * OrderedCaloHitList :=
  let this' := StdMap.clear this in
  if negb (StdMap.empty this') then (STATUS_CODE_FAILURE, this')
  else (STATUS_CODE_SUCCESS, this').

(** The nested loops of [Add], [Remove] and [GetCaloHitVector]: the outer
    one over the entries of the map, the inner one over the hits of the
    bucket; the (layer, hit) pairs in the order the loops visit them. *)
Definition hits_in_order (this : OrderedCaloHitList)
    : list (PseudoLayer * CaloHitPtr) :=
  entry ← StdMap.iter this; (λ pCaloHit, (entry.1, pCaloHit)) <$> StdSet.iter entry.2.

Definition GetCaloHitVector (this : OrderedCaloHitList)
    (caloHitVector : list CaloHitPtr) : list CaloHitPtr :=
  foldl (λ v visited, v ++ [visited.2]) caloHitVector (hits_in_order this).

Fixpoint Add_loop (this : OrderedCaloHitList)
    (visits : list (PseudoLayer * CaloHitPtr)) : StatusCode * OrderedCaloHitList :=
  match visits with
  | [] => (STATUS_CODE_SUCCESS, this)
  | visited :: visits' =>
      PANDORA_RETURN_RESULT_IF_ne STATUS_CODE_SUCCESS
        (AddCaloHit this visited.2 visited.1)
        (λ this', Add_loop this' visits')
  end.

(** [rhs] is another container than [this]. *)
Definition Add (this rhs : OrderedCaloHitList) : StatusCode * OrderedCaloHitList :=
  Add_loop this (hits_in_order rhs).

Fixpoint Remove_loop (this : OrderedCaloHitList)
    (visits : list (PseudoLayer * CaloHitPtr)) : StatusCode * OrderedCaloHitList :=
  match visits with
  | [] => (STATUS_CODE_SUCCESS, this)
  | visited :: visits' =>
      PANDORA_RETURN_RESULT_IF_AND_IF_ne STATUS_CODE_SUCCESS STATUS_CODE_NOT_FOUND
        (RemoveCaloHit this visited.2 visited.1)
        (λ this', Remove_loop this' visits')
  end.

(** [rhs] is another container than [this]. *)
Definition Remove (this rhs : OrderedCaloHitList) : StatusCode * OrderedCaloHitList :=
  Remove_loop this (hits_in_order rhs).

(** A client of the container: one call of a member function that changes
    it, whatever the status the call returns. *)
Inductive Operation : Type :=
  | OpAddCaloHit (pCaloHit : CaloHitPtr) (pseudoLayer : PseudoLayer)
  | OpRemoveCaloHit (pCaloHit : CaloHitPtr) (pseudoLayer : PseudoLayer)
  | OpAdd (rhs : OrderedCaloHitList)
  | OpRemove (rhs : OrderedCaloHitList)
  | OpReset.

Definition perform (this : OrderedCaloHitList) (op : Operation) : OrderedCaloHitList :=
  match op with
  | OpAddCaloHit pCaloHit pseudoLayer => (AddCaloHit this pCaloHit pseudoLayer).2
  | OpRemoveCaloHit pCaloHit pseudoLayer => (RemoveCaloHit this pCaloHit pseudoLayer).2
  | OpAdd rhs => (Add this rhs).2
  | OpRemove rhs => (Remove this rhs).2
  | OpReset => (Reset this).2
  end.

(** The container after a sequence of calls on a freshly constructed one. *)
Definition run (ops : list Operation) : OrderedCaloHitList :=
  foldl perform OrderedCaloHitList_new ops.

(** The hit is in the bucket of the layer. *)
Definition contains (this : OrderedCaloHitList) (pseudoLayer : PseudoLayer)
    (pCaloHit : CaloHitPtr) : Prop :=
  ∃ bucket, this !! pseudoLayer = Some bucket ∧ pCaloHit ∈ bucket.

(** The order in which the loops visit two (layer, hit) pairs: by layer,
    and by address within a layer. *)
Definition visit_lt (v1 v2 : PseudoLayer * CaloHitPtr) : Prop :=
  v1.1 < v2.1 ∨ (v1.1 = v2.1 ∧ v1.2 < v2.2).

Definition no_empty_bucket (this : OrderedCaloHitList) : Prop :=
  ∀ pseudoLayer bucket, this !! pseudoLayer = Some bucket → bucket ≠ ∅.


(** ** TrackManager *)

(** A [Track *] and a [const Algorithm *] are addresses; [TrackList] is the
    [std::set<Track *>] and [StringSet] the [std::set<std::string>] of the
    absent [Pandora/PandoraInternal.h]. *)
Abbreviation TrackList := (gset N) (only parsing).
Abbreviation StringSet := (gset string) (only parsing).
Abbreviation AlgorithmPtr := N (only parsing).
Abbreviation Uid := N (only parsing).

Module TrackManager.
Record AlgorithmInfo : Type := {
  m_parentListName : string;
  m_temporaryListNames : StringSet;
  m_numberOfListsCreated : N
}.

(** The data members of the class; a [TrackList *] held by the name map
    is owned by that map and modelled by the list it points to. *)
Record t : Type := {
  m_nameToTrackListMap : gmap string TrackList;
  m_algorithmInfoMap : gmap AlgorithmPtr AlgorithmInfo;
  m_currentListName : string;
  m_savedLists : StringSet;
  m_uidToTrackMap : gmap Uid N;
  m_parentDaughterRelationMap : list (Uid * Uid);
  m_siblingRelationMap : list (Uid * Uid)
}.

Definition set_currentListName (this : t) (name : string) : t :=
  {| m_nameToTrackListMap := m_nameToTrackListMap this;
     m_algorithmInfoMap := m_algorithmInfoMap this;
     m_currentListName := name;
     m_savedLists := m_savedLists this;
     m_uidToTrackMap := m_uidToTrackMap this;
     m_parentDaughterRelationMap := m_parentDaughterRelationMap this;
     m_siblingRelationMap := m_siblingRelationMap this |}.

(** [std::string::empty] *)
Definition string_empty (s : string) : bool :=
  match s with EmptyString => true | String _ _ => false end.

(** Every data member default-constructed: empty containers and the
    empty string, what the members hold before anything is assigned. *)
Definition default_members : t :=
  {| m_nameToTrackListMap := ∅;
     m_algorithmInfoMap := ∅;
     m_currentListName := EmptyString;
     m_savedLists := ∅;
     m_uidToTrackMap := ∅;
     m_parentDaughterRelationMap := [];
     m_siblingRelationMap := [] |}.

Definition GetCurrentListName (this : t) (trackListName : string)
    : StatusCode * string :=
  if string_empty (m_currentListName this)
  then (STATUS_CODE_NOT_INITIALIZED, trackListName)
  else (STATUS_CODE_SUCCESS, m_currentListName this).

Definition GetAlgorithmInputListName (this : t) (pAlgorithm : AlgorithmPtr)
    (trackListName : string) : StatusCode * string :=
  match m_algorithmInfoMap this !! pAlgorithm with
  | None => GetCurrentListName this trackListName
  | Some info => (STATUS_CODE_SUCCESS, m_parentListName info)
  end.

(** The output parameter of the call is the member [m_currentListName]. *)
Definition ResetCurrentListToAlgorithmInputList (this : t)
    (pAlgorithm : AlgorithmPtr) : StatusCode * t :=
  let result := GetAlgorithmInputListName this pAlgorithm (m_currentListName this) in
  (result.1, set_currentListName this result.2).

(** Modelled from the spec: [TrackManager::SaveList] is declared in
    [TrackManager.h] and defined in the absent [TrackManager.cc]. Section
    4.2: it creates a new named list from the given collection of
    references and fails [AlreadyPresent] if a list by that name already
    exists; the new name joins the saved lists. *)
Definition SaveList (this : t) (trackList : TrackList) (newListName : string)
    : StatusCode * t :=
  match m_nameToTrackListMap this !! newListName with
  | Some _ => (STATUS_CODE_ALREADY_PRESENT, this)
  | None =>
      (STATUS_CODE_SUCCESS,
       {| m_nameToTrackListMap := <[newListName := trackList]> (m_nameToTrackListMap this);
          m_algorithmInfoMap := m_algorithmInfoMap this;
          m_currentListName := m_currentListName this;
          m_savedLists := m_savedLists this ∪ {[newListName]};
          m_uidToTrackMap := m_uidToTrackMap this;
          m_parentDaughterRelationMap := m_parentDaughterRelationMap this;
          m_siblingRelationMap := m_siblingRelationMap this |})
  end.
End TrackManager.

(** ** InputObjectManager *)

Module InputObjectManager.
Section Manager.
(** [typename Manager<T>::ObjectList] *)
Context {ObjectList : Type}.

(** Modelled from the spec: the base class [Manager<T>] that holds the
    data members is declared in the absent [Managers/Manager.h]; section
    2 describes the named list registry as a map from list names to
    collections of references together with one current list name. *)
Record t : Type := {
  m_nameToListMap : gmap string ObjectList;
  m_currentListName : string;
  m_savedLists : StringSet
}.

(** Modelled from the spec: [InputObjectManager<T>::SaveList] is
    declared in [InputObjectManager.h], its definition is absent.
    Section 4.2: it creates a new named list from the given collection
    of references and fails [AlreadyPresent] if a list by that name
    already exists. *)
Definition SaveList (this : t) (objectList : ObjectList) (newListName : string)
    : StatusCode * t :=
  match m_nameToListMap this !! newListName with
  | Some _ => (STATUS_CODE_ALREADY_PRESENT, this)
  | None =>
      (STATUS_CODE_SUCCESS,
       {| m_nameToListMap := <[newListName := objectList]> (m_nameToListMap this);
          m_currentListName := m_currentListName this;
          m_savedLists := m_savedLists this ∪ {[newListName]} |})
  end.
End Manager.
Arguments t : clear implicits.
End InputObjectManager.

(** ** FragmentRemovalHelper *)

(** A function that returns or throws a [StatusCodeException]. *)
Inductive Outcome (A : Type) : Type :=
  | Returned (value : A)
  | Thrown (statusCode : StatusCode).
Arguments Returned {A} value.
Arguments Thrown {A} statusCode.

(** The arithmetic of the type [float] that the helpers use. The claims
    about the helpers hold whatever the rounding, so the type and its
    operations are left open. *)
Class FloatOps (float : Type) : Type := {
  f_zero : float;
  f_max : float;
  f_add : float → float → float;
  f_mul : float → float → float;
  f_div : float → float → float;
  f_lt : float → float → bool;
  f_of_uint : N → float
}.

(** [++n] on an [unsigned int] *)
Definition uint_incr (n : N) : N := (n + 1) mod 2 ^ 32.

(** [Objects/Cluster.h] is absent; of a cluster the helpers read the hit
    count it reports and its ordered calo hit list. *)
Record Cluster : Type := {
  GetNCaloHits : N;
  GetOrderedCaloHitList : OrderedCaloHitList
}.

(** What a helper returns: the literal [0.] or a quotient of two counters
    converted to [float]. The two are kept apart so that the divisor of
    every division can be read off. *)
Inductive Fraction : Set :=
  | ZeroLiteral
  | Quotient (numerator denominator : N).

Section FragmentRemovalHelper.
Context {float : Type} `{FloatOps float}.

(** [Objects/CartesianVector.h], [Objects/CaloHit.h] and [Objects/Helix.h]
    are absent: the vector type, its operations and the accessors the
    helpers call are parameters. [GetUnitVector] may throw. *)
Context {CartesianVector Helix : Type}.
Context (vector_minus : CartesianVector → CartesianVector → CartesianVector).
Context (GetMagnitudeSquared : CartesianVector → float).
Context (GetDotProduct : CartesianVector → CartesianVector → float).
Context (GetUnitVector : CartesianVector → Outcome CartesianVector).
Context (GetZ : CartesianVector → float).
Context (GetPositionVector : CaloHitPtr → CartesianVector).
Context (GetDistanceToPoint : Helix → CartesianVector → StatusCode * CartesianVector).

Definition to_float (q : Fraction) : float :=
  match q with
  | ZeroLiteral => f_zero
  | Quotient numerator denominator =>
      f_div (f_of_uint numerator) (f_of_uint denominator)
  end.

(** The two loops over the hits of cluster J, left at the first hit
    closer than the threshold. *)
Definition has_close_hit (positionVectorI : CartesianVector)
    (orderedCaloHitListJ : OrderedCaloHitList) (distanceThresholdSquared : float) : bool :=
  existsb
    (λ visitedJ,
       f_lt (GetMagnitudeSquared (vector_minus positionVectorI (GetPositionVector visitedJ.2)))
            distanceThresholdSquared)
    (hits_in_order orderedCaloHitListJ).

Definition GetFractionOfCloseHits_return (pClusterI pClusterJ : Cluster)
    (distanceThreshold : float) : Fraction :=
  let nCaloHitsI := GetNCaloHits pClusterI in
  let distanceThresholdSquared := f_mul distanceThreshold distanceThreshold in
  if bool_decide (0 = nCaloHitsI) then ZeroLiteral
  else
    let orderedCaloHitListI := GetOrderedCaloHitList pClusterI in
    let orderedCaloHitListJ := GetOrderedCaloHitList pClusterJ in
    let nCloseHits :=
      foldl
        (λ nCloseHits visitedI,
           if has_close_hit (GetPositionVector visitedI.2) orderedCaloHitListJ
                distanceThresholdSquared
           then uint_incr nCloseHits else nCloseHits)
        0 (hits_in_order orderedCaloHitListI) in
    Quotient nCloseHits nCaloHitsI.

Definition GetFractionOfCloseHits (pClusterI pClusterJ : Cluster)
    (distanceThreshold : float) : float :=
  to_float (GetFractionOfCloseHits_return pClusterI pClusterJ distanceThreshold).

(** The loops of the cone overload that takes the apex and the direction. *)
Fixpoint count_hits_in_cone (visits : list (PseudoLayer * CaloHitPtr))
    (coneApex coneDirection : CartesianVector) (coneCosineHalfAngle : float)
    (nHitsInCone : N) : Outcome N :=
  match visits with
  | [] => Returned nHitsInCone
  | visited :: visits' =>
      let hitPosition := GetPositionVector visited.2 in
      let positionDifference := vector_minus hitPosition coneApex in
      match GetUnitVector positionDifference with
      | Thrown statusCode => Thrown statusCode
      | Returned unitVector =>
          let cosTheta := GetDotProduct coneDirection unitVector in
          count_hits_in_cone visits' coneApex coneDirection coneCosineHalfAngle
            (if f_lt coneCosineHalfAngle cosTheta then uint_incr nHitsInCone
             else nHitsInCone)
      end
  end.

Definition GetFractionOfHitsInCone_return (pCluster : Cluster)
    (coneApex coneDirection : CartesianVector) (coneCosineHalfAngle : float)
    : Outcome Fraction :=
  let nCaloHits := GetNCaloHits pCluster in
  if bool_decide (0 = nCaloHits) then Returned ZeroLiteral
  else
    match count_hits_in_cone (hits_in_order (GetOrderedCaloHitList pCluster))
            coneApex coneDirection coneCosineHalfAngle 0 with
    | Thrown statusCode => Thrown statusCode
    | Returned nHitsInCone => Returned (Quotient nHitsInCone nCaloHits)
    end.

Definition GetFractionOfHitsInCone (pCluster : Cluster)
    (coneApex coneDirection : CartesianVector) (coneCosineHalfAngle : float)
    : Outcome float :=
  match GetFractionOfHitsInCone_return pCluster coneApex coneDirection
          coneCosineHalfAngle with
  | Thrown statusCode => Thrown statusCode
  | Returned q => Returned (to_float q)
  end.

(** The local variables of [GetClusterHelixDistance]. *)
Record HelixDistanceState : Type := {
  nHits : N;
  nOccupiedLayers : N;
  sumDistanceToHits : float;
  minDistanceToHit : float
}.

(** The loop over the hits of one layer; [inl] is the [return] taken when
    the helix fails to give a distance. *)
Fixpoint helix_hits_loop (pHelix : Helix) (hits : list CaloHitPtr)
    (st : HelixDistanceState) : StatusCode + HelixDistanceState :=
  match hits with
  | [] => inr st
  | pCaloHit :: hits' =>
      let result := GetDistanceToPoint pHelix (GetPositionVector pCaloHit) in
      if bool_decide (result.1 ≠ STATUS_CODE_SUCCESS) then inl result.1
      else
        let distance := GetZ result.2 in
        helix_hits_loop pHelix hits'
          {| nHits := uint_incr (nHits st);
             nOccupiedLayers := nOccupiedLayers st;
             sumDistanceToHits := f_add (sumDistanceToHits st) distance;
             minDistanceToHit :=
               if f_lt distance (minDistanceToHit st) then distance
               else minDistanceToHit st |}
  end.

(** The loop over the layers, [iLayer] being an [unsigned int] that wraps
    around; one unit of fuel per iteration, [None] when it runs out. *)
Fixpoint helix_layers_loop (fuel : nat) (pHelix : Helix)
    (orderedCaloHitList : OrderedCaloHitList) (iLayer endLayer : PseudoLayer)
    (maxOccupiedLayers : N) (st : HelixDistanceState)
    : option (StatusCode + HelixDistanceState) :=
  if bool_decide (iLayer ≤ endLayer) then
    match fuel with
    | O => None
    | S fuel' =>
        match orderedCaloHitList !! iLayer with
        | None =>
            helix_layers_loop fuel' pHelix orderedCaloHitList (uint_incr iLayer)
              endLayer maxOccupiedLayers st
        | Some bucket =>
            let st1 :=
              {| nHits := nHits st;
                 nOccupiedLayers := uint_incr (nOccupiedLayers st);
                 sumDistanceToHits := sumDistanceToHits st;
                 minDistanceToHit := minDistanceToHit st |} in
            if bool_decide (maxOccupiedLayers < nOccupiedLayers st1) then Some (inr st1)
            else
              match helix_hits_loop pHelix (StdSet.iter bucket) st1 with
              | inl statusCode => Some (inl statusCode)
              | inr st2 =>
                  helix_layers_loop fuel' pHelix orderedCaloHitList (uint_incr iLayer)
                    endLayer maxOccupiedLayers st2
              end
        end
    end
  else Some (inr st).

(** The result is the status code with the values the two output
    parameters hold when the function returns. *)
Definition GetClusterHelixDistance (fuel : nat) (pCluster : Cluster) (pHelix : Helix)
    (startLayer endLayer : PseudoLayer) (maxOccupiedLayers : N)
    (closestDistanceToHit meanDistanceToHits : float)
    : option (StatusCode * float * float) :=
  if bool_decide (endLayer < startLayer)
  then Some (STATUS_CODE_INVALID_PARAMETER, closestDistanceToHit, meanDistanceToHits)
  else
    let st0 :=
      {| nHits := 0; nOccupiedLayers := 0;
         sumDistanceToHits := f_zero; minDistanceToHit := f_max |} in
    match helix_layers_loop fuel pHelix (GetOrderedCaloHitList pCluster)
            startLayer endLayer maxOccupiedLayers st0 with
    | None => None
    | Some (inl statusCode) =>
        Some (statusCode, closestDistanceToHit, meanDistanceToHits)
    | Some (inr st) =>
        if bool_decide (0 ≠ nHits st)
        then Some (STATUS_CODE_SUCCESS, minDistanceToHit st,
                   f_div (sumDistanceToHits st) (f_of_uint (nHits st)))
        else Some (STATUS_CODE_NOT_FOUND, closestDistanceToHit, meanDistanceToHits)
    end.
End FragmentRemovalHelper.

(** Exact rational arithmetic in the place of [float], vectors as triples
    and a helix that measures the squared distance to the z axis: an
    instance on which the helpers can be evaluated. *)
Module Exact.
Global Instance Q_FloatOps : FloatOps Q := {|
  f_zero := 0%Q;
  f_max := (340282346638528859811704183484516925440 # 1)%Q;
  f_add := Qplus;
  f_mul := Qmult;
  f_div := Qdiv;
  f_lt := λ a b, negb (Qle_bool b a);
  f_of_uint := λ n, (Z.of_N n # 1)%Q
|}.

Definition Vector : Type := Q * Q * Q.
Definition minus (a b : Vector) : Vector :=
  (a.1.1 - b.1.1, a.1.2 - b.1.2, a.2 - b.2)%Q.
Definition dot (a b : Vector) : Q := (a.1.1 * b.1.1 + a.1.2 * b.1.2 + a.2 * b.2)%Q.
Definition magnitude_squared (a : Vector) : Q := dot a a.
(** Rationals have no square roots: the direction is returned as it is,
    and the null vector has none. *)
Definition direction (a : Vector) : Outcome Vector :=
  if Qeq_bool (magnitude_squared a) 0 then Thrown STATUS_CODE_NOT_INITIALIZED
  else Returned a.
Definition z (a : Vector) : Q := a.2.
Definition position (pCaloHit : N) : Vector :=
  ((Z.of_N pCaloHit # 1), 0, (Z.of_N pCaloHit # 1))%Q.
Definition distance_to_point (pHelix : unit) (point : Vector) : StatusCode * Vector :=
  (STATUS_CODE_SUCCESS, (0, 0, point.1.1 * point.1.1 + point.1.2 * point.1.2)%Q).
End Exact.

(** Whether the hit is in the bucket of the layer can be decided. *)
Global Instance contains_dec (this : gmap N (gset N)) (layer hit : N) : Decision (contains this layer hit).
Proof.
  unfold contains. destruct (this !! layer) as [b|].
  - destruct (decide (hit ∈ b)) as [Hin|Hin].
    + left. eauto.
    + right. intros (? & [= <-] & ?). done.
  - right. intros (? & [=] & _).
Defined.

(** ** The constructors and the assignment of OrderedCaloHitList *)

(** [PANDORA_THROW_RESULT_IF(StatusCode1, Operator, Command)] with the
    operator [!=]: run the command, throw a [StatusCodeException] with its
    status when it differs from [StatusCode1], go on otherwise. *)
Definition PANDORA_THROW_RESULT_IF_ne {S : Type} (StatusCode1 : StatusCode)
    (Command : StatusCode * S) : Outcome S :=
  let statusCode := Command.1 in
  if bool_decide (statusCode ≠ StatusCode1) then Thrown statusCode
  else Returned Command.2.

(** The copy constructor: the base class map starts empty, then [Add]. *)
Definition OrderedCaloHitList_copy (rhs : OrderedCaloHitList)
    : Outcome OrderedCaloHitList :=
  PANDORA_THROW_RESULT_IF_ne STATUS_CODE_SUCCESS (Add OrderedCaloHitList_new rhs).

(** [operator=] compares the address of [rhs] with [this], so the
    containers are taken from a store that maps addresses to containers;
    [None] when one of the two addresses holds no container. The result is
    the boolean returned and the store afterwards. *)
Definition operator_assign (objects : gmap N (gmap N (gset N))) (this rhs : N)
    : option (Outcome (bool * gmap N (gmap N (gset N)))) :=
  self ← objects !! this;
  other ← objects !! rhs;
  Some (
    if bool_decide (this = rhs) then Returned (true, objects)
    else
      let afterReset :=
        if negb (StdMap.empty self)
        then PANDORA_THROW_RESULT_IF_ne STATUS_CODE_SUCCESS (Reset self)
        else Returned self in
      match afterReset with
      | Thrown statusCode => Thrown statusCode
      | Returned self' =>
          let added := Add self' other in
          Returned (bool_decide (STATUS_CODE_SUCCESS = added.1),
                    <[this := added.2]> objects)
      end).

(** ** The list queries of the track manager *)

Module TrackManagerQueries.
Section Queries.
(** [TrackManager::GetList] is declared in [TrackManager.h] and defined in
    the absent [TrackManager.cc]: a parameter. Its output parameter
    [pTrackList] points to a list of the manager and is modelled by the
    list it points to. *)
Context (GetList : TrackManager.t → string → TrackList → StatusCode * TrackList).

(** The result is the status code with the values of the output
    parameters [pTrackList] and [trackListName]. *)
Definition GetCurrentList (this : TrackManager.t) (pTrackList : TrackList)
    (trackListName : string) : StatusCode * TrackList * string :=
  let trackListName' := TrackManager.m_currentListName this in
  (GetList this trackListName' pTrackList, trackListName').

Definition GetAlgorithmInputList (this : TrackManager.t) (pAlgorithm : AlgorithmPtr)
    (pTrackList : TrackList) (trackListName : string)
    : StatusCode * TrackList * string :=
  let trackListName' :=
    match TrackManager.m_algorithmInfoMap this !! pAlgorithm with
    | Some info => TrackManager.m_parentListName info
    | None => TrackManager.m_currentListName this
    end in
  (GetList this trackListName' pTrackList, trackListName').
End Queries.
End TrackManagerQueries.

(** ** The other functions of FragmentRemovalHelper *)

(** The greatest [unsigned int], [std::numeric_limits<unsigned int>::max()]. *)
Definition MAX_LAYER : PseudoLayer := 2 ^ 32 - 1.

(** The members of [ClusterContact] that its member functions read and
    write; the class is declared in the absent
    [Helpers/FragmentRemovalHelper.h]. *)
Record ClusterContact (float : Type) : Type := {
  m_pDaughterCluster : Cluster;
  m_pParentCluster : Cluster;
  m_parentClusterEnergy : float;
  m_parentTrackEnergy : float;
  m_nContactLayers : N;
  m_contactFraction : float;
  m_coneFraction1 : float;
  m_coneFraction2 : float;
  m_coneFraction3 : float;
  m_closeHitFraction1 : float;
  m_closeHitFraction2 : float;
  m_distanceToClosestHit : float;
  m_meanDistanceToHelix : float;
  m_closestDistanceToHelix : float
}.
Arguments m_pDaughterCluster {float} _.
Arguments m_pParentCluster {float} _.
Arguments m_parentClusterEnergy {float} _.
Arguments m_parentTrackEnergy {float} _.
Arguments m_nContactLayers {float} _.
Arguments m_contactFraction {float} _.
Arguments m_coneFraction1 {float} _.
Arguments m_coneFraction2 {float} _.
Arguments m_coneFraction3 {float} _.
Arguments m_closeHitFraction1 {float} _.
Arguments m_closeHitFraction2 {float} _.
Arguments m_distanceToClosestHit {float} _.
Arguments m_meanDistanceToHelix {float} _.
Arguments m_closestDistanceToHelix {float} _.

Section FragmentRemovalHelperMore.
Context {float : Type} `{FloatOps float}.
Context {CartesianVector Helix : Type}.
Context (vector_minus : CartesianVector → CartesianVector → CartesianVector).
Context (GetMagnitudeSquared : CartesianVector → float).
Context (GetDotProduct : CartesianVector → CartesianVector → float).
Context (GetUnitVector : CartesianVector → Outcome CartesianVector).
Context (GetPositionVector : CaloHitPtr → CartesianVector).

(** More arithmetic of [float]: subtraction, [std::fabs], [std::sqrt] and
    the literal [0.001f]. *)
Context (f_sub : float → float → float).
Context (f_fabs : float → float).
Context (f_sqrt : float → float).
Context (f_0_001 : float).

(** The condition of the loop of [GetNLayersCrossed] is evaluated in
    [double], its literal [0.5] being one: the type, the promotion of a
    [float] and the operations the condition uses. *)
Context {double : Type}.
Context (d_of_float : float → double).
Context (d_0_5 : double).
Context (d_add d_mul : double → double → double).
Context (d_fabs : double → double).
Context (d_lt : double → double → bool).

(** [Helix::GetReferencePoint], [Helix::GetPointInZ] with the point it
    leaves in its output parameter, and the three functions of the
    [GeometryHelper] singleton, [GetPseudoLayer] with the layer it leaves
    in its output parameter; all declared in absent headers. *)
Context (GetReferencePoint : Helix → CartesianVector).
Context (GetPointInZ : Helix → float → CartesianVector → StatusCode * CartesianVector).
Context (IsOutsideHCal : CartesianVector → bool).
Context (GetPseudoLayer : CartesianVector → StatusCode * PseudoLayer).
Context (IsInECalGapRegion : CartesianVector → bool).

(** [CaloHit::GetCellLengthScale], the literal [1.5f], and the inner and
    outer pseudo layers of a cluster. *)
Context (GetCellLengthScale : CaloHitPtr → float).
Context (f_1_5 : float).
Context (GetInnerPseudoLayer GetOuterPseudoLayer : Cluster → PseudoLayer).

(** What the two cone overloads read of a cluster and of a track:
    [GetAssociatedTrackList] (a [std::set<Track *>]), [GetShowerStartLayer]
    and [GetCentroid], which may throw, and the position and the momentum
    of the track state at the ECal. *)
Context (GetAssociatedTrackList : Cluster → TrackList).
Context (GetShowerStartLayer : Cluster → Outcome PseudoLayer).
Context (GetCentroid : Cluster → PseudoLayer → Outcome CartesianVector).
Context (GetTrackStateAtECalPosition GetTrackStateAtECalMomentum : N → CartesianVector).

(** What [HitDistanceComparison] reads: three values of the settings, kept
    in statics at the first call, the initial direction of a cluster and
    the cosine of the opening angle of two vectors. *)
Context (closeHitDistance1 closeHitDistance2 minCosOpeningAngle : float).
Context (GetInitialDirection : Cluster → CartesianVector).
Context (GetCosOpeningAngle : CartesianVector → CartesianVector → float).

Abbreviation GetFractionOfHitsInCone_apex :=
  (GetFractionOfHitsInCone vector_minus GetDotProduct GetUnitVector GetPositionVector).

(** The overload of [GetFractionOfHitsInCone] that takes a track. *)
Definition GetFractionOfHitsInCone_track (pCluster : Cluster) (pTrack : N)
    (coneCosineHalfAngle : float) : Outcome float :=
  let coneApex := GetTrackStateAtECalPosition pTrack in
  match GetUnitVector (GetTrackStateAtECalMomentum pTrack) with
  | Thrown statusCode => Thrown statusCode
  | Returned coneDirection =>
      GetFractionOfHitsInCone_apex pCluster coneApex coneDirection coneCosineHalfAngle
  end.

(** The overload of [GetFractionOfHitsInCone] that takes two clusters;
    [*(associatedTrackList.begin())] is the first track of the set. *)
Definition GetFractionOfHitsInCone_cluster (pClusterI pClusterJ : Cluster)
    (coneCosineHalfAngle : float) : Outcome float :=
  let associatedTrackList := GetAssociatedTrackList pClusterJ in
  match StdSet.iter associatedTrackList with
  | [] =>
      match GetShowerStartLayer pClusterJ with
      | Thrown statusCode => Thrown statusCode
      | Returned showerStartLayer =>
          match GetCentroid pClusterJ showerStartLayer with
          | Thrown statusCode => Thrown statusCode
          | Returned showerStartCentroid =>
              match GetUnitVector showerStartCentroid with
              | Thrown statusCode => Thrown statusCode
              | Returned coneDirection =>
                  GetFractionOfHitsInCone_apex pClusterI showerStartCentroid
                    coneDirection coneCosineHalfAngle
              end
          end
      end
  | pTrack :: _ =>
      let coneApex := GetTrackStateAtECalPosition pTrack in
      match GetUnitVector (GetTrackStateAtECalMomentum pTrack) with
      | Thrown statusCode => Thrown statusCode
      | Returned coneDirection =>
          GetFractionOfHitsInCone_apex pClusterI coneApex coneDirection
            coneCosineHalfAngle
      end
  end.

(** The local variables of the loop of [GetNLayersCrossed]. *)
Record LayersCrossedState : Type := {
  z : float;
  currentLayer : PseudoLayer;
  layerCount : PseudoLayer
}.

(** The loop of [GetNLayersCrossed] over the sampling points; one unit of
    fuel per iteration, [None] when it runs out. *)
Fixpoint layers_crossed_loop (fuel : nat) (pHelix : Helix)
    (referencePoint : CartesianVector) (zEnd deltaZ : float)
    (st : LayersCrossedState) : option (Outcome PseudoLayer) :=
  if d_lt (d_of_float (f_fabs (z st)))
          (d_fabs (d_add (d_of_float zEnd) (d_mul d_0_5 (d_of_float deltaZ))))
  then
    match fuel with
    | O => None
    | S fuel' =>
        match PANDORA_THROW_RESULT_IF_ne STATUS_CODE_SUCCESS
                (GetPointInZ pHelix (z st) referencePoint) with
        | Thrown statusCode => Some (Thrown statusCode)
        | Returned intersectionPoint =>
            let next := f_add (z st) deltaZ in
            if IsOutsideHCal intersectionPoint
               || bool_decide (STATUS_CODE_SUCCESS ≠ (GetPseudoLayer intersectionPoint).1)
            then
              layers_crossed_loop fuel' pHelix referencePoint zEnd deltaZ
                {| z := next; currentLayer := currentLayer st;
                   layerCount := layerCount st |}
            else
              let iLayer := (GetPseudoLayer intersectionPoint).2 in
              if bool_decide (iLayer ≠ currentLayer st) then
                layers_crossed_loop fuel' pHelix referencePoint zEnd deltaZ
                  {| z := next; currentLayer := iLayer;
                     layerCount :=
                       if negb (IsInECalGapRegion intersectionPoint)
                       then (layerCount st +
                             (if bool_decide (currentLayer st < iLayer)
                              then iLayer - currentLayer st
                              else currentLayer st - iLayer)) mod 2 ^ 32
                       else layerCount st |}
              else
                layers_crossed_loop fuel' pHelix referencePoint zEnd deltaZ
                  {| z := next; currentLayer := currentLayer st;
                     layerCount := layerCount st |}
        end
    end
  else Some (Returned (layerCount st)).

Definition GetNLayersCrossed (fuel : nat) (pHelix : Helix) (zStart zEnd : float)
    (nSamplingPoints : N) : option (Outcome PseudoLayer) :=
  if bool_decide (0 = nSamplingPoints) || bool_decide (1000 < nSamplingPoints)
  then Some (Thrown STATUS_CODE_INVALID_PARAMETER)
  else
    let deltaZ := f_div (f_sub zEnd zStart) (f_of_uint nSamplingPoints) in
    if f_lt (f_fabs deltaZ) f_0_001 then Some (Returned 0)
    else
      let referencePoint := GetReferencePoint pHelix in
      match PANDORA_THROW_RESULT_IF_ne STATUS_CODE_SUCCESS
              (GetPointInZ pHelix zStart referencePoint) with
      | Thrown statusCode => Some (Thrown statusCode)
      | Returned intersectionPoint =>
          if IsOutsideHCal intersectionPoint
             || bool_decide (STATUS_CODE_SUCCESS ≠ (GetPseudoLayer intersectionPoint).1)
          then Some (Returned MAX_LAYER)
          else
            let startLayer := (GetPseudoLayer intersectionPoint).2 in
            layers_crossed_loop fuel pHelix referencePoint zEnd deltaZ
              {| z := zStart; currentLayer := startLayer; layerCount := 0 |}
      end.

(** The two loops of [GetClusterContactDetails] over the hits of one layer
    in both clusters, left at the first pair of hits in contact. *)
Definition layer_in_contact (bucketI bucketJ : CaloHitList) (distanceThreshold : float)
    : bool :=
  existsb
    (λ pCaloHitI,
       let positionI := GetPositionVector pCaloHitI in
       let separationCut :=
         f_mul (f_mul f_1_5 (GetCellLengthScale pCaloHitI)) distanceThreshold in
       let separationCutSquared := f_mul separationCut separationCut in
       existsb
         (λ pCaloHitJ,
            let positionJ := GetPositionVector pCaloHitJ in
            let positionDifference := vector_minus positionI positionJ in
            f_lt (GetMagnitudeSquared positionDifference) separationCutSquared)
         (StdSet.iter bucketJ))
    (StdSet.iter bucketI).

(** The local counters of [GetClusterContactDetails]. *)
Record ContactState : Type := {
  nLayersCompared : N;
  nLayersInContact : N
}.

(** The loop over the layers; one unit of fuel per iteration. *)
Fixpoint contact_layers_loop (fuel : nat)
    (orderedCaloHitListI orderedCaloHitListJ : OrderedCaloHitList)
    (distanceThreshold : float) (iLayer endLayer : PseudoLayer) (st : ContactState)
    : option ContactState :=
  if bool_decide (iLayer ≤ endLayer) then
    match fuel with
    | O => None
    | S fuel' =>
        match orderedCaloHitListI !! iLayer, orderedCaloHitListJ !! iLayer with
        | Some bucketI, Some bucketJ =>
            contact_layers_loop fuel' orderedCaloHitListI orderedCaloHitListJ
              distanceThreshold (uint_incr iLayer) endLayer
              {| nLayersCompared := uint_incr (nLayersCompared st);
                 nLayersInContact :=
                   if layer_in_contact bucketI bucketJ distanceThreshold
                   then uint_incr (nLayersInContact st)
                   else nLayersInContact st |}
        | _, _ =>
            contact_layers_loop fuel' orderedCaloHitListI orderedCaloHitListJ
              distanceThreshold (uint_incr iLayer) endLayer st
        end
    end
  else Some st.

(** The result is the status code with the values the output parameters
    [nContactLayers] and [contactFraction] hold when the function returns. *)
Definition GetClusterContactDetails (fuel : nat) (pClusterI pClusterJ : Cluster)
    (distanceThreshold : float) (nContactLayers : N) (contactFraction : float)
    : option (StatusCode * N * float) :=
  let startLayer := N.max (GetInnerPseudoLayer pClusterI) (GetInnerPseudoLayer pClusterJ) in
  let endLayer := N.min (GetOuterPseudoLayer pClusterI) (GetOuterPseudoLayer pClusterJ) in
  match contact_layers_loop fuel (GetOrderedCaloHitList pClusterI)
          (GetOrderedCaloHitList pClusterJ) distanceThreshold startLayer endLayer
          {| nLayersCompared := 0; nLayersInContact := 0 |} with
  | None => None
  | Some st =>
      if bool_decide (0 < nLayersCompared st)
      then Some (STATUS_CODE_SUCCESS, nLayersInContact st,
                 f_div (f_of_uint (nLayersInContact st)) (f_of_uint (nLayersCompared st)))
      else Some (STATUS_CODE_NOT_FOUND, nContactLayers, contactFraction)
  end.

(** The local variables of the loops of [HitDistanceComparison]. *)
Record HitDistanceState : Type := {
  nCloseHits1 : N;
  nCloseHits2 : N;
  minDistanceSquared : float
}.

(** The loops over the hits of the parent cluster, for one hit of the
    daughter cluster: the two flags and the least distance so far. *)
Definition compare_with_parent_hits (positionVectorI : CartesianVector)
    (visitsJ : list (PseudoLayer * CaloHitPtr))
    (closeHitDistance1Squared closeHitDistance2Squared minDistanceSquared0 : float)
    : bool * bool * float :=
  foldl
    (λ '(isCloseHit1, isCloseHit2, minDistanceSquared') visitedJ,
       let distanceSquared :=
         GetMagnitudeSquared (vector_minus positionVectorI (GetPositionVector visitedJ.2)) in
       (if negb isCloseHit1 && f_lt distanceSquared closeHitDistance1Squared
        then true else isCloseHit1,
        if negb isCloseHit2 && f_lt distanceSquared closeHitDistance2Squared
        then true else isCloseHit2,
        if f_lt distanceSquared minDistanceSquared'
        then distanceSquared else minDistanceSquared'))
    (false, false, minDistanceSquared0) visitsJ.

(** [ClusterContact::HitDistanceComparison]: the contact afterwards, or
    the exception thrown. *)
Definition HitDistanceComparison (this : ClusterContact float)
    (pDaughterCluster pParentCluster : Cluster) : Outcome (ClusterContact float) :=
  let closeHitDistance1Squared := f_mul closeHitDistance1 closeHitDistance1 in
  let closeHitDistance2Squared := f_mul closeHitDistance2 closeHitDistance2 in
  let cosOpeningAngle :=
    GetCosOpeningAngle (GetInitialDirection pDaughterCluster)
      (GetInitialDirection pParentCluster) in
  if f_lt cosOpeningAngle minCosOpeningAngle then Returned this
  else
    let visitsJ := hits_in_order (GetOrderedCaloHitList pParentCluster) in
    let st :=
      foldl
        (λ st visitedI,
           let '(isCloseHit1, isCloseHit2, minDistanceSquared') :=
             compare_with_parent_hits (GetPositionVector visitedI.2) visitsJ
               closeHitDistance1Squared closeHitDistance2Squared
               (minDistanceSquared st) in
           {| nCloseHits1 :=
                if isCloseHit1 then uint_incr (nCloseHits1 st) else nCloseHits1 st;
              nCloseHits2 :=
                if isCloseHit2 then uint_incr (nCloseHits2 st) else nCloseHits2 st;
              minDistanceSquared := minDistanceSquared' |})
        {| nCloseHits1 := 0; nCloseHits2 := 0; minDistanceSquared := f_max |}
        (hits_in_order (GetOrderedCaloHitList pDaughterCluster)) in
    let nDaughterCaloHits := GetNCaloHits pDaughterCluster in
    if bool_decide (0 = nDaughterCaloHits) then Thrown STATUS_CODE_INVALID_PARAMETER
    else
      Returned
        {| m_pDaughterCluster := m_pDaughterCluster this;
           m_pParentCluster := m_pParentCluster this;
           m_parentClusterEnergy := m_parentClusterEnergy this;
           m_parentTrackEnergy := m_parentTrackEnergy this;
           m_nContactLayers := m_nContactLayers this;
           m_contactFraction := m_contactFraction this;
           m_coneFraction1 := m_coneFraction1 this;
           m_coneFraction2 := m_coneFraction2 this;
           m_coneFraction3 := m_coneFraction3 this;
           m_closeHitFraction1 :=
             f_div (f_of_uint (nCloseHits1 st)) (f_of_uint nDaughterCaloHits);
           m_closeHitFraction2 :=
             f_div (f_of_uint (nCloseHits2 st)) (f_of_uint nDaughterCaloHits);
           m_distanceToClosestHit := f_sqrt (minDistanceSquared st);
           m_meanDistanceToHelix := m_meanDistanceToHelix this;
           m_closestDistanceToHelix := m_closestDistanceToHelix this |}.
End FragmentRemovalHelperMore.

(** The layers that a loop [for (iLayer = startLayer; iLayer <= endLayer;
    ++iLayer)] visits when [endLayer] is below the greatest
    [unsigned int]. *)
Fixpoint layers_from (iLayer : PseudoLayer) (count : nat) : list PseudoLayer :=
  match count with
  | O => []
  | S count' => iLayer :: layers_from (iLayer + 1) count'
  end.

Definition layer_range (startLayer endLayer : PseudoLayer) : list PseudoLayer :=
  layers_from startLayer (N.to_nat (endLayer + 1 - startLayer)).

(** The layers of the range that are occupied in both lists. *)
Definition common_layers (orderedCaloHitListI orderedCaloHitListJ : OrderedCaloHitList)
    (startLayer endLayer : PseudoLayer) : list PseudoLayer :=
  filter (λ layer, is_Some (orderedCaloHitListI !! layer)
                   ∧ is_Some (orderedCaloHitListJ !! layer))
    (layer_range startLayer endLayer).

(** More of the exact instance: the other operations on rationals, with
    the root of the integer part in the place of the square root, [double]
    as the rationals again, a helix along the z axis and a detector of
    one pseudo layer. *)
Module ExactMore.
Definition sqrt (a : Q) : Q := (Z.sqrt (Qnum a / Z.pos (Qden a)) # 1)%Q.
Definition abs (a : Q) : Q := (Z.abs (Qnum a) # Qden a)%Q.
Definition point_in_z (pHelix : ()) (z : Q) (referencePoint : Exact.Vector)
    : StatusCode * Exact.Vector :=
  (STATUS_CODE_SUCCESS, (0, 0, z)%Q).
Definition one_layer (point : Exact.Vector) : StatusCode * N := (STATUS_CODE_SUCCESS, 3).
Definition cos_opening_angle (a b : Exact.Vector) : Q := Exact.dot a b.
End ExactMore.

(** * Properties *)

Example flatten_557 :
  GetCaloHitVector (run [OpAddCaloHit 1 5; OpAddCaloHit 2 5; OpAddCaloHit 3 7]) [] = [1; 2; 3].
Proof. vm_compute. reflexivity. Qed.

(** ** Iteration over [std::set] and [std::map] *)

Section Iteration.
Lemma StronglySorted_le_lt (l : list N) :
  StronglySorted N.le l → NoDup l → StronglySorted N.lt l.
Proof.
  induction 1 as [|x l Hl IH Hx]; intros Hnd; [constructor|].
  apply NoDup_cons in Hnd as [Hx' Hnd].
  constructor; [by apply IH|].
  apply Forall_forall. intros y Hy.
  rewrite Forall_forall in Hx. specialize (Hx y Hy).
  assert (x ≠ y) by (intros ->; done). lia.
Qed.

Lemma set_iter_elem_of (s : gset N) x : x ∈ StdSet.iter s ↔ x ∈ s.
Proof.
  unfold StdSet.iter. rewrite merge_sort_Permutation. apply elem_of_elements.
Qed.

Lemma set_iter_sorted (s : gset N) : StronglySorted N.lt (StdSet.iter s).
Proof.
  apply StronglySorted_le_lt.
  - apply StronglySorted_merge_sort; apply _.
  - unfold StdSet.iter. rewrite merge_sort_Permutation. apply NoDup_elements.
Qed.

Context {V : Type}.
Implicit Types m : gmap N V.

Global Instance key_le_total : Total (@StdMap.key_le V).
Proof. intros e1 e2. unfold StdMap.key_le. lia. Qed.

Global Instance key_le_trans : Transitive (@StdMap.key_le V).
Proof. intros e1 e2 e3. unfold StdMap.key_le. lia. Qed.

Lemma map_iter_elem_of m k v : (k, v) ∈ StdMap.iter m ↔ m !! k = Some v.
Proof.
  unfold StdMap.iter. rewrite merge_sort_Permutation.
  apply elem_of_map_to_list.
Qed.

Lemma map_iter_keys_sorted m : StronglySorted N.lt (StdMap.iter m).*1.
Proof.
  apply StronglySorted_le_lt.
  - apply (StronglySorted_fmap _ StdMap.key_le); [done|].
    apply StronglySorted_merge_sort; apply _.
  - unfold StdMap.iter. rewrite merge_sort_Permutation.
    apply NoDup_fst_map_to_list.
Qed.

Lemma map_iter_empty : StdMap.iter (∅ : gmap N V) = [].
Proof. unfold StdMap.iter. by rewrite map_to_list_empty. Qed.
End Iteration.

(** ** AddCaloHit and RemoveCaloHit *)

Section AddRemove.
Implicit Types this : gmap N (gset N).

Lemma AddCaloHit_absent this pCaloHit pseudoLayer :
  this !! pseudoLayer = None →
  AddCaloHit this pCaloHit pseudoLayer =
    (STATUS_CODE_SUCCESS, <[pseudoLayer := {[pCaloHit]}]> this).
Proof.
  intros Hnone. unfold AddCaloHit, StdSet.insert, StdMap.insert.
  rewrite Hnone. rewrite bool_decide_eq_true_2 by set_solver. simpl.
  by rewrite (left_id_L ∅ (∪)).
Qed.

Lemma AddCaloHit_present this pCaloHit pseudoLayer bucket :
  this !! pseudoLayer = Some bucket → pCaloHit ∈ bucket →
  AddCaloHit this pCaloHit pseudoLayer = (STATUS_CODE_ALREADY_PRESENT, this).
Proof.
  intros Hsome Hin. unfold AddCaloHit, StdSet.insert. rewrite Hsome.
  rewrite bool_decide_eq_false_2 by (intros Hn; by apply Hn). simpl.
  f_equal. apply insert_id. rewrite Hsome. f_equal. set_solver.
Qed.

Lemma AddCaloHit_new_hit this pCaloHit pseudoLayer bucket :
  this !! pseudoLayer = Some bucket → pCaloHit ∉ bucket →
  AddCaloHit this pCaloHit pseudoLayer =
    (STATUS_CODE_SUCCESS, <[pseudoLayer := bucket ∪ {[pCaloHit]}]> this).
Proof.
  intros Hsome Hin. unfold AddCaloHit, StdSet.insert. rewrite Hsome.
  by rewrite bool_decide_eq_true_2.
Qed.

Lemma AddCaloHit_no_empty_bucket this pCaloHit pseudoLayer :
  no_empty_bucket this → no_empty_bucket (AddCaloHit this pCaloHit pseudoLayer).2.
Proof.
  intros Hinv layer bucket.
  destruct (this !! pseudoLayer) as [b|] eqn:Hb.
  - destruct (decide (pCaloHit ∈ b)) as [Hin|Hin].
    + rewrite (AddCaloHit_present _ _ _ _ Hb Hin). apply Hinv.
    + rewrite (AddCaloHit_new_hit _ _ _ _ Hb Hin). simpl.
      rewrite lookup_insert. case_decide.
      * intros [= <-]. set_solver.
      * apply Hinv.
  - rewrite (AddCaloHit_absent _ _ _ Hb). simpl.
    rewrite lookup_insert. case_decide.
    + intros [= <-]. set_solver.
    + apply Hinv.
Qed.

Lemma RemoveCaloHit_status this pCaloHit pseudoLayer :
  (RemoveCaloHit this pCaloHit pseudoLayer).1 = STATUS_CODE_SUCCESS ∨
  (RemoveCaloHit this pCaloHit pseudoLayer).1 = STATUS_CODE_NOT_FOUND.
Proof.
  unfold RemoveCaloHit. destruct (this !! pseudoLayer); [|by right].
  destruct (StdSet.find _ _); [|by right]. simpl.
  destruct (StdSet.empty _); by left.
Qed.

Lemma RemoveCaloHit_no_empty_bucket this pCaloHit pseudoLayer :
  no_empty_bucket this → no_empty_bucket (RemoveCaloHit this pCaloHit pseudoLayer).2.
Proof.
  intros Hinv layer bucket. unfold RemoveCaloHit.
  destruct (this !! pseudoLayer) as [b|] eqn:Hb; [|apply Hinv].
  destruct (StdSet.find b pCaloHit); [|apply Hinv]. simpl.
  unfold StdSet.empty. case_bool_decide as Hempty; simpl.
  - rewrite lookup_delete. case_decide; [done|apply Hinv].
  - rewrite lookup_insert. case_decide; [|apply Hinv].
    by intros [= <-].
Qed.

Lemma RemoveCaloHit_last_hit this pCaloHit pseudoLayer :
  this !! pseudoLayer = Some {[pCaloHit]} →
  RemoveCaloHit this pCaloHit pseudoLayer =
    (STATUS_CODE_SUCCESS, delete pseudoLayer this).
Proof.
  intros Hb. unfold RemoveCaloHit, StdSet.find, StdSet.empty, StdSet.erase.
  rewrite Hb. rewrite bool_decide_eq_true_2 by set_solver. simpl.
  by rewrite bool_decide_eq_true_2 by set_solver.
Qed.

Lemma Remove_loop_succeeds (visits : list (N * N)) this :
  Remove_loop this visits =
    (STATUS_CODE_SUCCESS,
     foldl (λ this' visited, (RemoveCaloHit this' visited.2 visited.1).2) this visits).
Proof.
  revert this. induction visits as [|v visits IH]; intros this; [done|].
  simpl. unfold PANDORA_RETURN_RESULT_IF_AND_IF_ne.
  destruct (RemoveCaloHit_status this v.2 v.1) as [-> | ->]; simpl; apply IH.
Qed.

Lemma Add_loop_no_empty_bucket (visits : list (N * N)) this :
  no_empty_bucket this → no_empty_bucket (Add_loop this visits).2.
Proof.
  revert this. induction visits as [|v visits IH]; intros this Hinv; [done|].
  simpl. unfold PANDORA_RETURN_RESULT_IF_ne.
  pose proof (AddCaloHit_no_empty_bucket this v.2 v.1 Hinv).
  case_bool_decide; [done|]. by apply IH.
Qed.

Lemma Remove_loop_no_empty_bucket (visits : list (N * N)) this :
  no_empty_bucket this → no_empty_bucket (Remove_loop this visits).2.
Proof.
  rewrite Remove_loop_succeeds. simpl.
  revert this. induction visits as [|v visits IH]; intros this Hinv; [done|].
  simpl. by apply IH, RemoveCaloHit_no_empty_bucket.
Qed.

Lemma perform_no_empty_bucket this op :
  no_empty_bucket this → no_empty_bucket (perform this op).
Proof.
  destruct op as [pCaloHit layer|pCaloHit layer|rhs|rhs|]; simpl.
  - apply AddCaloHit_no_empty_bucket.
  - apply RemoveCaloHit_no_empty_bucket.
  - apply Add_loop_no_empty_bucket.
  - apply Remove_loop_no_empty_bucket.
  - intros _ layer bucket. unfold Reset, StdMap.clear.
    destruct (negb _); simpl; by rewrite lookup_empty.
Qed.

Lemma foldl_perform_no_empty_bucket ops this :
  no_empty_bucket this → no_empty_bucket (foldl perform this ops).
Proof.
  revert this. induction ops as [|op ops IH]; intros this Hinv; [done|].
  simpl. apply IH. by apply perform_no_empty_bucket.
Qed.
End AddRemove.

(** C1. Whatever calls of [AddCaloHit] and [RemoveCaloHit] (and of [Add],
    [Remove] and [Reset], which are made of them) a freshly constructed
    container has seen, none of its buckets is empty; and when
    the bucket of a layer holds one hit only, removing that hit succeeds and
    the next [GetCaloHitsInPseudoLayer] for the layer returns
    [STATUS_CODE_NOT_FOUND], leaving its output parameter alone. *)
Theorem container_never_holds_empty_bucket (ops : list Operation) :
  no_empty_bucket (run ops) ∧
  ∀ pCaloHit pseudoLayer pCaloHitList,
    run ops !! pseudoLayer = Some {[pCaloHit]} →
    (RemoveCaloHit (run ops) pCaloHit pseudoLayer).1 = STATUS_CODE_SUCCESS ∧
    GetCaloHitsInPseudoLayer (RemoveCaloHit (run ops) pCaloHit pseudoLayer).2
      pseudoLayer pCaloHitList = (STATUS_CODE_NOT_FOUND, pCaloHitList).
Proof.
  split.
  - apply foldl_perform_no_empty_bucket. intros layer bucket.
    unfold OrderedCaloHitList_new. by rewrite lookup_empty.
  - intros pCaloHit pseudoLayer pCaloHitList Hb.
    rewrite (RemoveCaloHit_last_hit _ _ _ Hb). split; [done|].
    unfold GetCaloHitsInPseudoLayer. simpl. by rewrite lookup_delete_eq.
Qed.

Lemma container_never_holds_empty_bucket_witness :
  run [OpAddCaloHit 11 5; OpAddCaloHit 12 6; OpRemoveCaloHit 12 6] !! 5 = Some {[11]} ∧
  (RemoveCaloHit (run [OpAddCaloHit 11 5; OpAddCaloHit 12 6; OpRemoveCaloHit 12 6]) 11 5).1
    = STATUS_CODE_SUCCESS ∧
  GetCaloHitsInPseudoLayer
    (RemoveCaloHit (run [OpAddCaloHit 11 5; OpAddCaloHit 12 6; OpRemoveCaloHit 12 6]) 11 5).2
    5 ∅ = (STATUS_CODE_NOT_FOUND, ∅).
Proof.
  assert (Hb : run [OpAddCaloHit 11 5; OpAddCaloHit 12 6; OpRemoveCaloHit 12 6] !! 5
               = Some {[11]}) by (vm_compute; reflexivity).
  split; [exact Hb|].
  exact (proj2 (container_never_holds_empty_bucket
                  [OpAddCaloHit 11 5; OpAddCaloHit 12 6; OpRemoveCaloHit 12 6]) 11 5 ∅ Hb).
Defined.

(** C3. [AddCaloHit] returns [STATUS_CODE_ALREADY_PRESENT] exactly when the
    hit is already in the bucket of the layer, and then leaves the container
    as it was; otherwise it returns [STATUS_CODE_SUCCESS] with the hit added
    to the bucket of the layer, a bucket that starts empty when the layer
    had none. *)
Theorem AddCaloHit_already_present_iff (this : gmap N (gset N))
    (pCaloHit pseudoLayer : N) :
  ((AddCaloHit this pCaloHit pseudoLayer).1 = STATUS_CODE_ALREADY_PRESENT
     ↔ contains this pseudoLayer pCaloHit) ∧
  (contains this pseudoLayer pCaloHit →
     (AddCaloHit this pCaloHit pseudoLayer).2 = this) ∧
  (¬ contains this pseudoLayer pCaloHit →
     AddCaloHit this pCaloHit pseudoLayer =
       (STATUS_CODE_SUCCESS,
        <[pseudoLayer := default ∅ (this !! pseudoLayer) ∪ {[pCaloHit]}]> this)).
Proof.
  unfold contains.
  destruct (this !! pseudoLayer) as [b|] eqn:Hb.
  - destruct (decide (pCaloHit ∈ b)) as [Hin|Hin].
    + rewrite (AddCaloHit_present _ _ _ _ Hb Hin). simpl.
      split_and!; [naive_solver|done|]. intros []. eauto.
    + rewrite (AddCaloHit_new_hit _ _ _ _ Hb Hin). simpl.
      split_and!; [|naive_solver|done].
      split; [done|]. intros (b' & [= <-] & ?). done.
  - rewrite (AddCaloHit_absent _ _ _ Hb). simpl.
    split_and!; [naive_solver|naive_solver|].
    intros _. by rewrite (left_id_L ∅ (∪)).
Qed.

Lemma AddCaloHit_already_present_iff_witness :
  contains (run [OpAddCaloHit 11 5]) 5 11 ∧
  (AddCaloHit (run [OpAddCaloHit 11 5]) 11 5).1 = STATUS_CODE_ALREADY_PRESENT ∧
  (AddCaloHit (run [OpAddCaloHit 11 5]) 11 5).2 = run [OpAddCaloHit 11 5] ∧
  ¬ contains (run [OpAddCaloHit 11 5]) 7 11 ∧
  (AddCaloHit (run [OpAddCaloHit 11 5]) 11 7).1 = STATUS_CODE_SUCCESS.
Proof.
  assert (Hin : contains (run [OpAddCaloHit 11 5]) 5 11).
  { exists {[11]}. split; [vm_compute; reflexivity|set_solver]. }
  assert (Hout : ¬ contains (run [OpAddCaloHit 11 5]) 7 11).
  { intros (b & Hb & _). vm_compute in Hb. discriminate. }
  pose proof (AddCaloHit_already_present_iff (run [OpAddCaloHit 11 5]) 11 5)
    as (Hiff & Hsame & _).
  pose proof (AddCaloHit_already_present_iff (run [OpAddCaloHit 11 5]) 11 7)
    as (_ & _ & Hnew).
  split_and!; [exact Hin|by apply Hiff|by apply Hsame|exact Hout|].
  by rewrite (Hnew Hout).
Defined.

(** C9. [Reset] returns [STATUS_CODE_SUCCESS] on every container, never
    [STATUS_CODE_FAILURE]: the container it leaves is empty, and every
    [GetCaloHitsInPseudoLayer] on it returns [STATUS_CODE_NOT_FOUND]. *)
Theorem Reset_always_succeeds (this : gmap N (gset N)) :
  Reset this = (STATUS_CODE_SUCCESS, ∅) ∧
  (Reset this).1 ≠ STATUS_CODE_FAILURE ∧
  ∀ pseudoLayer pCaloHitList,
    GetCaloHitsInPseudoLayer (Reset this).2 pseudoLayer pCaloHitList
      = (STATUS_CODE_NOT_FOUND, pCaloHitList).
Proof.
  assert (Hreset : Reset this = (STATUS_CODE_SUCCESS, ∅)).
  { unfold Reset, StdMap.clear, StdMap.empty.
    by rewrite bool_decide_eq_true_2 by apply map_size_empty. }
  rewrite Hreset. split_and!; [done|done|].
  intros pseudoLayer pCaloHitList. unfold GetCaloHitsInPseudoLayer. simpl.
  by rewrite lookup_empty.
Qed.

(** ** The order of the visits *)

Section Visits.
Implicit Types this rhs : gmap N (gset N).

Lemma hits_in_order_elem_of this pseudoLayer pCaloHit :
  (pseudoLayer, pCaloHit) ∈ hits_in_order this ↔ contains this pseudoLayer pCaloHit.
Proof.
  unfold hits_in_order, contains. rewrite list_elem_of_bind. split.
  - intros ([layer bucket] & Hhit & Hentry). simpl in Hhit.
    apply list_elem_of_fmap in Hhit as (hit & [= -> ->] & Hhit).
    exists bucket. split; [by apply map_iter_elem_of|by apply set_iter_elem_of].
  - intros (bucket & Hb & Hin). exists (pseudoLayer, bucket). split.
    + simpl. apply list_elem_of_fmap. exists pCaloHit.
      split; [done|by apply set_iter_elem_of].
    + by apply map_iter_elem_of.
Qed.

Lemma visits_sorted (entries : list (N * gset N)) :
  StronglySorted N.lt entries.*1 →
  StronglySorted visit_lt
    (entry ← entries; (λ pCaloHit, (entry.1, pCaloHit)) <$> StdSet.iter entry.2).
Proof.
  induction entries as [|[layer bucket] entries IH]; intros Hsorted.
  { constructor. }
  rewrite fmap_cons in Hsorted. apply StronglySorted_cons in Hsorted as [Hlt Hsorted].
  rewrite bind_cons. apply StronglySorted_app. split_and!.
  - intros [l1 h1] [l2 h2] Hin1 Hin2. left. simpl in *.
    apply list_elem_of_fmap in Hin1 as (? & [= -> ->] & _).
    apply list_elem_of_bind in Hin2 as ([layer' bucket'] & Hin2 & Hentry).
    apply list_elem_of_fmap in Hin2 as (? & [= -> ->] & _).
    rewrite Forall_forall in Hlt. apply Hlt.
    apply list_elem_of_fmap. by exists (layer', bucket').
  - simpl. apply (StronglySorted_fmap _ N.lt); [|apply set_iter_sorted].
    intros x y Hxy. right. done.
  - by apply IH.
Qed.

Lemma hits_in_order_sorted this : StronglySorted visit_lt (hits_in_order this).
Proof. apply visits_sorted, map_iter_keys_sorted. Qed.

Global Instance visit_lt_irrefl : Irreflexive visit_lt.
Proof. intros [l h] [?|[_ ?]]; simpl in *; lia. Qed.

Global Instance visit_lt_antisymm : AntiSymm (=) visit_lt.
Proof. intros [l1 h1] [l2 h2] [?|[? ?]] [?|[? ?]]; simpl in *; lia. Qed.

Lemma StronglySorted_visit_lt_NoDup (visits : list (N * N)) :
  StronglySorted visit_lt visits → NoDup visits.
Proof.
  induction 1 as [|v visits _ IH Hall]; constructor; [|done].
  intros Hin. rewrite Forall_forall in Hall.
  by apply (irreflexivity visit_lt v), Hall.
Qed.

(** The loops visit the pairs of the container in the one order that
    [visit_lt] allows. *)
Lemma hits_in_order_unique this (visits : list (N * N)) :
  StronglySorted visit_lt visits →
  (∀ pseudoLayer pCaloHit,
     (pseudoLayer, pCaloHit) ∈ visits ↔ contains this pseudoLayer pCaloHit) →
  hits_in_order this = visits.
Proof.
  intros Hsorted Helems.
  apply (StronglySorted_unique visit_lt); [apply hits_in_order_sorted|done|].
  apply NoDup_Permutation.
  - apply StronglySorted_visit_lt_NoDup, hits_in_order_sorted.
  - by apply StronglySorted_visit_lt_NoDup.
  - intros [l h]. by rewrite hits_in_order_elem_of, Helems.
Qed.

Lemma push_back_visits (visits : list (N * N)) (caloHitVector : list N) :
  foldl (λ v visited, v ++ [visited.2]) caloHitVector visits
    = caloHitVector ++ visits.*2.
Proof.
  revert caloHitVector. induction visits as [|v visits IH]; intros caloHitVector.
  { simpl. by rewrite app_nil_r. }
  simpl. rewrite IH. by rewrite <- app_assoc.
Qed.

Lemma GetCaloHitVector_visits this (caloHitVector : list N) :
  GetCaloHitVector this caloHitVector = caloHitVector ++ (hits_in_order this).*2.
Proof. apply push_back_visits. Qed.
End Visits.

(** C4. [Remove] calls [RemoveCaloHit] for every (layer, hit) pair of the
    other container, one after the other, and returns
    [STATUS_CODE_SUCCESS]: each call returns [STATUS_CODE_SUCCESS] or
    [STATUS_CODE_NOT_FOUND], and the macro around the call goes on after
    both, returning early only on a status that is neither. *)
Theorem Remove_tolerates_not_found (this rhs : gmap N (gset N)) :
  Remove this rhs =
    (STATUS_CODE_SUCCESS,
     foldl (λ this' visited, (RemoveCaloHit this' visited.2 visited.1).2)
       this (hits_in_order rhs)) ∧
  (∀ pseudoLayer pCaloHit,
     (pseudoLayer, pCaloHit) ∈ hits_in_order rhs ↔ contains rhs pseudoLayer pCaloHit) ∧
  (∀ this' pCaloHit pseudoLayer,
     (RemoveCaloHit this' pCaloHit pseudoLayer).1 = STATUS_CODE_SUCCESS ∨
     (RemoveCaloHit this' pCaloHit pseudoLayer).1 = STATUS_CODE_NOT_FOUND) ∧
  (∀ (Command : StatusCode * gmap N (gset N)) rest,
     PANDORA_RETURN_RESULT_IF_AND_IF_ne STATUS_CODE_SUCCESS STATUS_CODE_NOT_FOUND
       Command rest =
     if decide (Command.1 = STATUS_CODE_SUCCESS ∨ Command.1 = STATUS_CODE_NOT_FOUND)
     then rest Command.2 else Command).
Proof.
  split_and!.
  - apply Remove_loop_succeeds.
  - apply hits_in_order_elem_of.
  - apply RemoveCaloHit_status.
  - intros [statusCode this'] rest. unfold PANDORA_RETURN_RESULT_IF_AND_IF_ne.
    by destruct statusCode.
Qed.

(** ** GetCaloHitVector *)

Section Flatten.
Implicit Types this : gmap N (gset N).

Lemma hits_in_order_layers_sorted this :
  StronglySorted N.le (hits_in_order this).*1.
Proof.
  apply (StronglySorted_fmap _ visit_lt); [|apply hits_in_order_sorted].
  intros [l1 h1] [l2 h2] [?|[? _]]; simpl in *; lia.
Qed.

Lemma run_two_hits_one_layer (h1 h2 h3 : N) :
  h1 ≠ h2 →
  run [OpAddCaloHit h1 5; OpAddCaloHit h2 5; OpAddCaloHit h3 7]
    = <[7 := {[h3]}]> (<[5 := {[h1]} ∪ {[h2]}]> ∅).
Proof.
  intros Hne. unfold run, OrderedCaloHitList_new. simpl.
  rewrite (AddCaloHit_absent ∅ h1 5) by apply lookup_empty. simpl.
  rewrite (AddCaloHit_new_hit _ h2 5 {[h1]});
    [|apply lookup_insert_eq|set_solver]. simpl.
  rewrite insert_insert_eq.
  rewrite AddCaloHit_absent; [done|].
  rewrite lookup_insert_ne by done. apply lookup_empty.
Qed.

Lemma contains_two_hits_one_layer (h1 h2 h3 pseudoLayer pCaloHit : N) :
  contains (<[7 := {[h3]}]> (<[5 := {[h1]} ∪ {[h2]}]> ∅)) pseudoLayer pCaloHit
  ↔ (pseudoLayer, pCaloHit) = (5, h1) ∨ (pseudoLayer, pCaloHit) = (5, h2)
    ∨ (pseudoLayer, pCaloHit) = (7, h3).
Proof.
  unfold contains. split.
  - intros (bucket & Hb & Hin).
    rewrite lookup_insert in Hb. case_decide as H7.
    { injection Hb as <-. subst. right. right. f_equal. set_solver. }
    rewrite lookup_insert in Hb. case_decide as H5; [|by rewrite lookup_empty in Hb].
    injection Hb as <-. subst.
    apply elem_of_union in Hin as [Hin|Hin]; apply elem_of_singleton in Hin;
      subst; auto.
  - intros [[= -> ->]|[[= -> ->]|[= -> ->]]].
    + exists ({[h1]} ∪ {[h2]}). split; [|set_solver].
      rewrite lookup_insert_ne by done. apply lookup_insert_eq.
    + exists ({[h1]} ∪ {[h2]}). split; [|set_solver].
      rewrite lookup_insert_ne by done. apply lookup_insert_eq.
    + exists {[h3]}. split; [apply lookup_insert_eq|set_solver].
Qed.

Lemma flatten_two_hits_one_layer (h1 h2 h3 : N) :
  h1 < h2 →
  hits_in_order (<[7 := {[h3]}]> (<[5 := {[h1]} ∪ {[h2]}]> ∅))
    = [(5, h1); (5, h2); (7, h3)].
Proof.
  intros Hlt. apply hits_in_order_unique.
  - repeat (constructor; [|repeat constructor; unfold visit_lt; simpl; lia]).
    constructor.
  - intros pseudoLayer pCaloHit. rewrite contains_two_hits_one_layer.
    rewrite !elem_of_cons, elem_of_nil. naive_solver.
Qed.
End Flatten.

(** C2, as the code has it. [GetCaloHitVector] appends to the vector every
    hit of the container, each once per layer that holds it, in
    non-decreasing layer order; within a layer the hits come in the order
    of the bucket, a [std::set] of pointers, which is the ascending order of
    the addresses and not the order of insertion. Inserting h1 at layer 5,
    h2 at layer 5 and h3 at layer 7 yields [h1, h2, h3] when h1 is below
    h2, and [h2, h1, h3] when h2 is below h1. *)
Theorem GetCaloHitVector_layer_then_address_order (this : gmap N (gset N))
    (caloHitVector : list N) :
  GetCaloHitVector this caloHitVector = caloHitVector ++ (hits_in_order this).*2 ∧
  (∀ pseudoLayer pCaloHit,
     (pseudoLayer, pCaloHit) ∈ hits_in_order this ↔ contains this pseudoLayer pCaloHit) ∧
  NoDup (hits_in_order this) ∧
  StronglySorted N.le (hits_in_order this).*1 ∧
  StronglySorted visit_lt (hits_in_order this) ∧
  (∀ h1 h2 h3, h1 < h2 →
     GetCaloHitVector (run [OpAddCaloHit h1 5; OpAddCaloHit h2 5; OpAddCaloHit h3 7]) []
       = [h1; h2; h3]) ∧
  (∀ h1 h2 h3, h2 < h1 →
     GetCaloHitVector (run [OpAddCaloHit h1 5; OpAddCaloHit h2 5; OpAddCaloHit h3 7]) []
       = [h2; h1; h3]).
Proof.
  split_and!.
  - apply GetCaloHitVector_visits.
  - apply hits_in_order_elem_of.
  - apply StronglySorted_visit_lt_NoDup, hits_in_order_sorted.
  - apply hits_in_order_layers_sorted.
  - apply hits_in_order_sorted.
  - intros h1 h2 h3 Hlt. rewrite GetCaloHitVector_visits.
    rewrite run_two_hits_one_layer by lia.
    by rewrite flatten_two_hits_one_layer.
  - intros h1 h2 h3 Hlt. rewrite GetCaloHitVector_visits.
    rewrite run_two_hits_one_layer by lia.
    rewrite (comm_L (∪) {[h1]} {[h2]}).
    by rewrite flatten_two_hits_one_layer.
Qed.

Lemma GetCaloHitVector_layer_then_address_order_witness :
  GetCaloHitVector (run [OpAddCaloHit 10 5; OpAddCaloHit 20 5; OpAddCaloHit 30 7]) []
    = [10; 20; 30] ∧
  GetCaloHitVector (run [OpAddCaloHit 20 5; OpAddCaloHit 10 5; OpAddCaloHit 30 7]) []
    = [10; 20; 30].
Proof.
  pose proof (GetCaloHitVector_layer_then_address_order ∅ [])
    as (_ & _ & _ & _ & _ & Hbelow & Habove).
  split; [apply (Hbelow 10 20 30)|apply (Habove 20 10 30)]; reflexivity.
Defined.

(** C2, as the specification words it, fails: with h1 at address 20 and h2
    at address 10, both inserted at layer 5 in this order before h3 at
    layer 7, the vector is not [h1, h2, h3]. *)
Lemma GetCaloHitVector_not_insertion_order :
  GetCaloHitVector (run [OpAddCaloHit 20 5; OpAddCaloHit 10 5; OpAddCaloHit 30 7]) []
    = [10; 20; 30] ∧
  GetCaloHitVector (run [OpAddCaloHit 20 5; OpAddCaloHit 10 5; OpAddCaloHit 30 7]) []
    ≠ [20; 10; 30].
Proof.
  assert (Hflat :
    GetCaloHitVector (run [OpAddCaloHit 20 5; OpAddCaloHit 10 5; OpAddCaloHit 30 7]) []
      = [10; 20; 30]) by (vm_compute; reflexivity).
  split; [exact Hflat|]. rewrite Hflat. discriminate.
Qed.

(** ** The list names of the track manager *)

Section ListNames.
Import TrackManager.

Lemma string_empty_iff (s : string) : string_empty s = true ↔ s = EmptyString.
Proof. by destruct s. Qed.

Lemma GetCurrentListName_unset (this : t) (trackListName : string) :
  m_currentListName this = EmptyString →
  GetCurrentListName this trackListName = (STATUS_CODE_NOT_INITIALIZED, trackListName).
Proof. unfold GetCurrentListName. by intros ->. Qed.

Lemma GetCurrentListName_set (this : t) (trackListName : string) :
  m_currentListName this ≠ EmptyString →
  GetCurrentListName this trackListName = (STATUS_CODE_SUCCESS, m_currentListName this).
Proof. unfold GetCurrentListName. by destruct (m_currentListName this). Qed.
End ListNames.

(** C6. While the current list name is empty, as it is before the first
    assignment, [GetCurrentListName] returns [STATUS_CODE_NOT_INITIALIZED]
    and its output parameter keeps the value it had; once the name is not
    empty, it returns [STATUS_CODE_SUCCESS] and the output parameter holds
    that name. *)
Theorem GetCurrentListName_not_initialized (this : TrackManager.t)
    (trackListName : string) :
  (TrackManager.m_currentListName this = EmptyString →
     TrackManager.GetCurrentListName this trackListName
       = (STATUS_CODE_NOT_INITIALIZED, trackListName)) ∧
  (TrackManager.m_currentListName this ≠ EmptyString →
     TrackManager.GetCurrentListName this trackListName
       = (STATUS_CODE_SUCCESS, TrackManager.m_currentListName this)) ∧
  TrackManager.GetCurrentListName TrackManager.default_members trackListName
    = (STATUS_CODE_NOT_INITIALIZED, trackListName) ∧
  (∀ name, name ≠ EmptyString →
     TrackManager.GetCurrentListName (TrackManager.set_currentListName this name)
       trackListName = (STATUS_CODE_SUCCESS, name)).
Proof.
  split_and!.
  - apply GetCurrentListName_unset.
  - apply GetCurrentListName_set.
  - by apply GetCurrentListName_unset.
  - intros name Hname. by rewrite GetCurrentListName_set.
Qed.

Lemma GetCurrentListName_not_initialized_witness :
  TrackManager.GetCurrentListName TrackManager.default_members "out"
    = (STATUS_CODE_NOT_INITIALIZED, "out") ∧
  TrackManager.GetCurrentListName
    (TrackManager.set_currentListName TrackManager.default_members "input") "out"
    = (STATUS_CODE_SUCCESS, "input").
Proof.
  split.
  - apply (proj1 (GetCurrentListName_not_initialized TrackManager.default_members "out")).
    reflexivity.
  - apply (proj1 (proj2 (GetCurrentListName_not_initialized
       (TrackManager.set_currentListName TrackManager.default_members "input") "out"))).
    discriminate.
Defined.

(** C8. For an algorithm without an entry in the algorithm info map,
    [GetAlgorithmInputListName] does what [GetCurrentListName] does: it
    never returns [STATUS_CODE_NOT_FOUND], it returns
    [STATUS_CODE_NOT_INITIALIZED] exactly when the current list name is
    empty, and the current list name with [STATUS_CODE_SUCCESS] otherwise.
    For an algorithm with an entry it returns [STATUS_CODE_SUCCESS] and the
    stored parent list name. *)
Theorem GetAlgorithmInputListName_unregistered (this : TrackManager.t)
    (pAlgorithm : N) (trackListName : string) :
  (TrackManager.m_algorithmInfoMap this !! pAlgorithm = None →
     TrackManager.GetAlgorithmInputListName this pAlgorithm trackListName
       = TrackManager.GetCurrentListName this trackListName ∧
     (TrackManager.GetAlgorithmInputListName this pAlgorithm trackListName).1
       ≠ STATUS_CODE_NOT_FOUND ∧
     ((TrackManager.GetAlgorithmInputListName this pAlgorithm trackListName).1
        = STATUS_CODE_NOT_INITIALIZED
      ↔ TrackManager.m_currentListName this = EmptyString) ∧
     (TrackManager.m_currentListName this ≠ EmptyString →
        TrackManager.GetAlgorithmInputListName this pAlgorithm trackListName
          = (STATUS_CODE_SUCCESS, TrackManager.m_currentListName this))) ∧
  (∀ info, TrackManager.m_algorithmInfoMap this !! pAlgorithm = Some info →
     TrackManager.GetAlgorithmInputListName this pAlgorithm trackListName
       = (STATUS_CODE_SUCCESS, TrackManager.m_parentListName info)).
Proof.
  unfold TrackManager.GetAlgorithmInputListName. split.
  - intros ->. split; [done|].
    destruct (TrackManager.m_currentListName this) as [|c name] eqn:Hname.
    + rewrite GetCurrentListName_unset by done. simpl. by split_and!.
    + rewrite GetCurrentListName_set by (by rewrite Hname). simpl.
      rewrite Hname. by split_and!.
  - by intros info ->.
Qed.

Lemma GetAlgorithmInputListName_unregistered_witness :
  TrackManager.GetAlgorithmInputListName
    (TrackManager.set_currentListName TrackManager.default_members "input") 4096 "out"
    = (STATUS_CODE_SUCCESS, "input") ∧
  TrackManager.GetAlgorithmInputListName TrackManager.default_members 4096 "out"
    = (STATUS_CODE_NOT_INITIALIZED, "out").
Proof.
  split.
  - apply (proj1 (GetAlgorithmInputListName_unregistered
       (TrackManager.set_currentListName TrackManager.default_members "input")
       4096 "out")); [reflexivity|discriminate].
  - rewrite (proj1 (proj1 (GetAlgorithmInputListName_unregistered
       TrackManager.default_members 4096 "out") eq_refl)).
    reflexivity.
Defined.

(** C5. [SaveList] under a name that the name map already holds returns
    [STATUS_CODE_ALREADY_PRESENT] and leaves the manager, and so the list
    stored under that name, as it was; for the track manager and for the
    input object manager. *)
Theorem SaveList_existing_name_rejected :
  (∀ (this : TrackManager.t) (trackList existing : gset N) (newListName : string),
     TrackManager.m_nameToTrackListMap this !! newListName = Some existing →
     TrackManager.SaveList this trackList newListName
       = (STATUS_CODE_ALREADY_PRESENT, this) ∧
     TrackManager.m_nameToTrackListMap
       (TrackManager.SaveList this trackList newListName).2 !! newListName
       = Some existing) ∧
  (∀ (ObjectList : Type) (this : InputObjectManager.t ObjectList)
     (objectList existing : ObjectList) (newListName : string),
     InputObjectManager.m_nameToListMap this !! newListName = Some existing →
     InputObjectManager.SaveList this objectList newListName
       = (STATUS_CODE_ALREADY_PRESENT, this) ∧
     InputObjectManager.m_nameToListMap
       (InputObjectManager.SaveList this objectList newListName).2 !! newListName
       = Some existing).
Proof.
  split.
  - intros this trackList existing newListName Hexisting.
    unfold TrackManager.SaveList. by rewrite Hexisting.
  - intros ObjectList this objectList existing newListName Hexisting.
    unfold InputObjectManager.SaveList. by rewrite Hexisting.
Qed.

Lemma SaveList_existing_name_rejected_witness :
  (TrackManager.SaveList
     (TrackManager.SaveList TrackManager.default_members {[1; 2]} "cones").2
     {[3]} "cones").1 = STATUS_CODE_ALREADY_PRESENT ∧
  TrackManager.m_nameToTrackListMap
    (TrackManager.SaveList
       (TrackManager.SaveList TrackManager.default_members {[1; 2]} "cones").2
       {[3]} "cones").2 !! "cones" = Some {[1; 2]}.
Proof.
  assert (Hexisting :
    TrackManager.m_nameToTrackListMap
      (TrackManager.SaveList TrackManager.default_members {[1; 2]} "cones").2
      !! "cones" = Some ({[1; 2]} : gset N)) by (vm_compute; reflexivity).
  destruct (proj1 SaveList_existing_name_rejected _ {[3]} _ _ Hexisting) as [Hret Hkept].
  split; [by rewrite Hret|exact Hkept].
Defined.

(** ** The fragment removal helpers *)

Section HelperProperties.
Context {float : Type} `{FloatOps float} {CartesianVector Helix : Type}.
Context (GetZ : CartesianVector → float).
Context (GetPositionVector : N → CartesianVector).
Context (GetDistanceToPoint : Helix → CartesianVector → StatusCode * CartesianVector).

Lemma uint_incr_below (n : N) : n < 2 ^ 32 - 1 → uint_incr n = n + 1.
Proof.
  unfold uint_incr. change (2 ^ 32) with 4294967296.
  intros Hn. apply N.mod_small. lia.
Qed.

(** The loop over the layers comes to an end when [endLayer] is not the
    greatest [unsigned int]: the layers from [iLayer] to [endLayer] are
    fuel enough. *)
Lemma helix_layers_loop_returns (fuel : nat) (pHelix : Helix)
    (orderedCaloHitList : gmap N (gset N)) (iLayer endLayer maxOccupiedLayers : N)
    (st : HelixDistanceState) :
  endLayer < 2 ^ 32 - 1 →
  (N.to_nat (endLayer + 1 - iLayer) ≤ fuel)%nat →
  is_Some (helix_layers_loop GetZ GetPositionVector GetDistanceToPoint fuel pHelix
             orderedCaloHitList iLayer endLayer maxOccupiedLayers st).
Proof.
  intros Hend. revert iLayer st.
  induction fuel as [|fuel IH]; intros iLayer st Hfuel; simpl.
  - rewrite bool_decide_eq_false_2 by lia. eauto.
  - case_bool_decide as Hle; [|eauto].
    rewrite (uint_incr_below iLayer) by lia.
    destruct (orderedCaloHitList !! iLayer) as [bucket|].
    + case_bool_decide; [eauto|].
      destruct (helix_hits_loop _ _ _ _ _ _); [eauto|].
      apply IH. lia.
    + apply IH. lia.
Qed.

Lemma GetClusterHelixDistance_returns (pCluster : Cluster) (pHelix : Helix)
    (startLayer endLayer maxOccupiedLayers : N)
    (closestDistanceToHit meanDistanceToHits : float) :
  endLayer < 2 ^ 32 - 1 →
  is_Some (GetClusterHelixDistance GetZ GetPositionVector GetDistanceToPoint
             (N.to_nat (endLayer + 1 - startLayer)) pCluster pHelix startLayer
             endLayer maxOccupiedLayers closestDistanceToHit meanDistanceToHits).
Proof.
  intros Hend. unfold GetClusterHelixDistance.
  case_bool_decide; [eauto|].
  edestruct (helix_layers_loop_returns (N.to_nat (endLayer + 1 - startLayer)) pHelix
               (GetOrderedCaloHitList pCluster) startLayer endLayer maxOccupiedLayers)
    as [[statusCode|st] ->]; [done|done|eauto|].
  case_bool_decide; eauto.
Qed.
End HelperProperties.

(** C7. With [startLayer] above [endLayer], [GetClusterHelixDistance]
    returns [STATUS_CODE_INVALID_PARAMETER] as its result value, before any
    loop runs, and its two output parameters keep the values they had. *)
Theorem GetClusterHelixDistance_inverted_range
    {float : Type} `{FloatOps float} {CartesianVector Helix : Type}
    (GetZ : CartesianVector → float) (GetPositionVector : N → CartesianVector)
    (GetDistanceToPoint : Helix → CartesianVector → StatusCode * CartesianVector)
    (fuel : nat) (pCluster : Cluster) (pHelix : Helix)
    (startLayer endLayer maxOccupiedLayers : N)
    (closestDistanceToHit meanDistanceToHits : float) :
  endLayer < startLayer →
  GetClusterHelixDistance GetZ GetPositionVector GetDistanceToPoint fuel pCluster pHelix
    startLayer endLayer maxOccupiedLayers closestDistanceToHit meanDistanceToHits
  = Some (STATUS_CODE_INVALID_PARAMETER, closestDistanceToHit, meanDistanceToHits).
Proof.
  intros Hinverted. unfold GetClusterHelixDistance.
  by rewrite bool_decide_eq_true_2.
Qed.

Lemma GetClusterHelixDistance_inverted_range_witness :
  7 < 9 ∧
  GetClusterHelixDistance Exact.z Exact.position Exact.distance_to_point 0
    {| GetNCaloHits := 1; GetOrderedCaloHitList := run [OpAddCaloHit 3 8] |} tt
    9 7 4 (5 # 1)%Q (6 # 1)%Q
  = Some (STATUS_CODE_INVALID_PARAMETER, (5 # 1)%Q, (6 # 1)%Q).
Proof.
  split; [lia|].
  apply (GetClusterHelixDistance_inverted_range Exact.z Exact.position
           Exact.distance_to_point). lia.
Defined.

(** C10. When the cluster reports no calo hit, [GetFractionOfCloseHits] and
    [GetFractionOfHitsInCone] return the literal zero, whatever the other
    cluster, the threshold, the apex, the direction and the half angle; and
    whenever one of them returns a quotient, its divisor is the reported
    hit count and is not zero. *)
Theorem fractions_zero_without_hits
    {float : Type} `{FloatOps float} {CartesianVector : Type}
    (vector_minus : CartesianVector → CartesianVector → CartesianVector)
    (GetMagnitudeSquared : CartesianVector → float)
    (GetDotProduct : CartesianVector → CartesianVector → float)
    (GetUnitVector : CartesianVector → Outcome CartesianVector)
    (GetPositionVector : N → CartesianVector)
    (pClusterI pClusterJ : Cluster) (distanceThreshold : float)
    (coneApex coneDirection : CartesianVector) (coneCosineHalfAngle : float) :
  (GetNCaloHits pClusterI = 0 →
     GetFractionOfCloseHits vector_minus GetMagnitudeSquared GetPositionVector
       pClusterI pClusterJ distanceThreshold = f_zero ∧
     GetFractionOfHitsInCone vector_minus GetDotProduct GetUnitVector GetPositionVector
       pClusterI coneApex coneDirection coneCosineHalfAngle = Returned f_zero) ∧
  (∀ numerator denominator,
     GetFractionOfCloseHits_return vector_minus GetMagnitudeSquared GetPositionVector
       pClusterI pClusterJ distanceThreshold = Quotient numerator denominator →
     denominator = GetNCaloHits pClusterI ∧ denominator ≠ 0) ∧
  (∀ numerator denominator,
     GetFractionOfHitsInCone_return vector_minus GetDotProduct GetUnitVector
       GetPositionVector pClusterI coneApex coneDirection coneCosineHalfAngle
       = Returned (Quotient numerator denominator) →
     denominator = GetNCaloHits pClusterI ∧ denominator ≠ 0).
Proof.
  split_and!.
  - intros Hzero.
    unfold GetFractionOfCloseHits, GetFractionOfCloseHits_return,
      GetFractionOfHitsInCone, GetFractionOfHitsInCone_return.
    rewrite Hzero. by rewrite !bool_decide_eq_true_2.
  - intros numerator denominator. unfold GetFractionOfCloseHits_return.
    case_bool_decide as Hzero; [done|]. intros [= _ <-]. done.
  - intros numerator denominator. unfold GetFractionOfHitsInCone_return.
    case_bool_decide as Hzero; [done|].
    destruct (count_hits_in_cone _ _ _ _ _ _ _ _ _); [|done].
    intros [= _ <-]. done.
Qed.

Lemma fractions_zero_without_hits_witness :
  GetFractionOfCloseHits Exact.minus Exact.magnitude_squared Exact.position
    {| GetNCaloHits := 0; GetOrderedCaloHitList := run [OpAddCaloHit 3 8] |}
    {| GetNCaloHits := 1; GetOrderedCaloHitList := run [OpAddCaloHit 4 8] |}
    (2 # 1)%Q = 0%Q ∧
  GetFractionOfHitsInCone Exact.minus Exact.dot Exact.direction Exact.position
    {| GetNCaloHits := 0; GetOrderedCaloHitList := run [OpAddCaloHit 3 8] |}
    (0, 0, 0)%Q (0, 0, 1)%Q (1 # 2)%Q = Returned 0%Q.
Proof.
  exact (proj1 (fractions_zero_without_hits Exact.minus Exact.magnitude_squared
    Exact.dot Exact.direction Exact.position
    {| GetNCaloHits := 0; GetOrderedCaloHitList := run [OpAddCaloHit 3 8] |}
    {| GetNCaloHits := 1; GetOrderedCaloHitList := run [OpAddCaloHit 4 8] |}
    (2 # 1)%Q (0, 0, 0)%Q (0, 0, 1)%Q (1 # 2)%Q) eq_refl).
Defined.


(** * Further properties of the code *)

(** ** The contents of a container *)

Section Contents.
Implicit Types this rhs : gmap N (gset N).

Lemma contains_AddCaloHit this pCaloHit pseudoLayer layer hit :
  contains (AddCaloHit this pCaloHit pseudoLayer).2 layer hit
  ↔ contains this layer hit ∨ (layer = pseudoLayer ∧ hit = pCaloHit).
Proof.
  unfold contains. destruct (this !! pseudoLayer) as [b|] eqn:Hb.
  - destruct (decide (pCaloHit ∈ b)) as [Hin|Hin].
    + rewrite (AddCaloHit_present _ _ _ _ Hb Hin). simpl. naive_solver.
    + rewrite (AddCaloHit_new_hit _ _ _ _ Hb Hin). simpl.
      destruct (decide (layer = pseudoLayer)) as [->|Hne].
      * rewrite lookup_insert_eq, Hb. split.
        -- intros (? & [= <-] & [?|?%elem_of_singleton]%elem_of_union); eauto.
        -- intros [(? & [= <-] & ?)|[_ ->]]; eexists; split; eauto; set_solver.
      * rewrite lookup_insert_ne by done. naive_solver.
  - rewrite (AddCaloHit_absent _ _ _ Hb). simpl.
    destruct (decide (layer = pseudoLayer)) as [->|Hne].
    + rewrite lookup_insert_eq, Hb. split.
      * intros (? & [= <-] & ?%elem_of_singleton). eauto.
      * intros [(? & [=] & _)|[_ ->]]. eexists; split; eauto. set_solver.
    + rewrite lookup_insert_ne by done. naive_solver.
Qed.

Lemma RemoveCaloHit_absent this pCaloHit pseudoLayer :
  ¬ contains this pseudoLayer pCaloHit →
  RemoveCaloHit this pCaloHit pseudoLayer = (STATUS_CODE_NOT_FOUND, this).
Proof.
  intros Hnot. unfold RemoveCaloHit, StdSet.find.
  destruct (this !! pseudoLayer) as [b|] eqn:Hb; [|done].
  rewrite bool_decide_eq_false_2; [done|].
  intros Hin. apply Hnot. by exists b.
Qed.

Lemma RemoveCaloHit_present this pCaloHit pseudoLayer :
  contains this pseudoLayer pCaloHit →
  (RemoveCaloHit this pCaloHit pseudoLayer).1 = STATUS_CODE_SUCCESS.
Proof.
  intros (b & Hb & Hin). unfold RemoveCaloHit, StdSet.find. rewrite Hb.
  rewrite bool_decide_eq_true_2 by done. simpl. by destruct (StdSet.empty _).
Qed.

Lemma contains_RemoveCaloHit this pCaloHit pseudoLayer layer hit :
  contains (RemoveCaloHit this pCaloHit pseudoLayer).2 layer hit
  ↔ contains this layer hit ∧ ¬ (layer = pseudoLayer ∧ hit = pCaloHit).
Proof.
  destruct (decide (contains this pseudoLayer pCaloHit)) as [Hin|Hnot].
  2:{ rewrite RemoveCaloHit_absent by done. simpl. split; [|naive_solver].
      intros Hc. split; [done|]. intros [-> ->]. done. }
  destruct Hin as (b & Hb & Hin). unfold contains, RemoveCaloHit, StdSet.find.
  rewrite Hb. rewrite bool_decide_eq_true_2 by done. simpl.
  unfold StdSet.empty, StdSet.erase. case_bool_decide as Hempty; simpl.
  - destruct (decide (layer = pseudoLayer)) as [->|Hne].
    + rewrite lookup_delete_eq, Hb. split; [naive_solver|].
      intros [(? & [= <-] & Hhit) Hneq]. exfalso.
      assert (hit ∈ b ∖ {[pCaloHit]}) by (set_solver). set_solver.
    + rewrite lookup_delete_ne by done. naive_solver.
  - destruct (decide (layer = pseudoLayer)) as [->|Hne].
    + rewrite lookup_insert_eq, Hb. split.
      * intros (? & [= <-] & Hhit). split; [exists b; set_solver|set_solver].
      * intros [(? & [= <-] & Hhit) Hneq]. eexists. split; [done|]. set_solver.
    + rewrite lookup_insert_ne by done. naive_solver.
Qed.

(** Two containers without empty buckets that hold the same pairs are the
    same map. *)
Lemma contains_ext this rhs :
  no_empty_bucket this → no_empty_bucket rhs →
  (∀ layer hit, contains this layer hit ↔ contains rhs layer hit) →
  this = rhs.
Proof.
  intros Hthis Hrhs Hsame. apply map_eq. intros layer.
  destruct (this !! layer) as [b1|] eqn:H1, (rhs !! layer) as [b2|] eqn:H2.
  - f_equal. apply set_eq. intros hit. split; intros Hin.
    + destruct (proj1 (Hsame layer hit)) as (? & Hb & ?); [by exists b1|]. congruence.
    + destruct (proj2 (Hsame layer hit)) as (? & Hb & ?); [by exists b2|]. congruence.
  - exfalso. destruct (set_choose_L b1 (Hthis _ _ H1)) as [hit Hin].
    destruct (proj1 (Hsame layer hit)) as (? & Hb & ?); [by exists b1|]. congruence.
  - exfalso. destruct (set_choose_L b2 (Hrhs _ _ H2)) as [hit Hin].
    destruct (proj2 (Hsame layer hit)) as (? & Hb & ?); [by exists b2|]. congruence.
  - done.
Qed.

Lemma contains_empty layer hit : ¬ contains ∅ layer hit.
Proof. intros (b & Hb & _). by rewrite lookup_empty in Hb. Qed.

Lemma no_empty_bucket_empty : no_empty_bucket ∅.
Proof. intros layer bucket. by rewrite lookup_empty. Qed.
End Contents.

(** ** RemoveCaloHit, and AddCaloHit after or before it *)

Section RoundTrips.
Implicit Types this rhs : gmap N (gset N).

Lemma AddCaloHit_status this pCaloHit pseudoLayer :
  (contains this pseudoLayer pCaloHit ∧
     AddCaloHit this pCaloHit pseudoLayer = (STATUS_CODE_ALREADY_PRESENT, this)) ∨
  (¬ contains this pseudoLayer pCaloHit ∧
     (AddCaloHit this pCaloHit pseudoLayer).1 = STATUS_CODE_SUCCESS).
Proof.
  unfold contains. destruct (this !! pseudoLayer) as [b|] eqn:Hb.
  - destruct (decide (pCaloHit ∈ b)) as [Hin|Hin].
    + left. rewrite (AddCaloHit_present _ _ _ _ Hb Hin). eauto.
    + right. rewrite (AddCaloHit_new_hit _ _ _ _ Hb Hin). naive_solver.
  - right. rewrite (AddCaloHit_absent _ _ _ Hb). naive_solver.
Qed.
End RoundTrips.

(** X1. [RemoveCaloHit] returns [STATUS_CODE_NOT_FOUND] exactly when the
    hit is not in the bucket of the layer (no bucket, or a bucket without
    the hit) and then leaves the container as it was; in every case the
    container afterwards holds the pairs it held before, less the one
    removed. *)
Theorem RemoveCaloHit_not_found_iff (this : gmap N (gset N))
    (pCaloHit pseudoLayer : N) :
  ((RemoveCaloHit this pCaloHit pseudoLayer).1 = STATUS_CODE_NOT_FOUND
     ↔ ¬ contains this pseudoLayer pCaloHit) ∧
  ((RemoveCaloHit this pCaloHit pseudoLayer).1 = STATUS_CODE_NOT_FOUND →
     (RemoveCaloHit this pCaloHit pseudoLayer).2 = this) ∧
  (∀ layer hit,
     contains (RemoveCaloHit this pCaloHit pseudoLayer).2 layer hit
     ↔ contains this layer hit ∧ ¬ (layer = pseudoLayer ∧ hit = pCaloHit)).
Proof.
  split_and!; [| |apply contains_RemoveCaloHit].
  - destruct (decide (contains this pseudoLayer pCaloHit)) as [Hin|Hnot].
    + rewrite (RemoveCaloHit_present _ _ _ Hin). naive_solver.
    + by rewrite (RemoveCaloHit_absent _ _ _ Hnot).
  - destruct (decide (contains this pseudoLayer pCaloHit)) as [Hin|Hnot].
    + by rewrite (RemoveCaloHit_present _ _ _ Hin).
    + by rewrite (RemoveCaloHit_absent _ _ _ Hnot).
Qed.

Lemma RemoveCaloHit_not_found_iff_witness :
  (RemoveCaloHit (run [OpAddCaloHit 11 5]) 12 5).1 = STATUS_CODE_NOT_FOUND ∧
  (RemoveCaloHit (run [OpAddCaloHit 11 5]) 12 5).2 = run [OpAddCaloHit 11 5].
Proof.
  assert (Hnot : ¬ contains (run [OpAddCaloHit 11 5]) 5 12).
  { apply (bool_decide_unpack _). vm_compute. exact I. }
  pose proof (RemoveCaloHit_not_found_iff (run [OpAddCaloHit 11 5]) 12 5)
    as (Hiff & Hsame & _).
  split; [by apply Hiff|by apply Hsame, Hiff].
Defined.

(** X2. Adding a hit that the layer does not hold and removing it again
    gives back the container as it was, provided the layer had no empty
    bucket (an empty bucket would be erased by the removal). *)
Theorem AddCaloHit_then_RemoveCaloHit (this : gmap N (gset N))
    (pCaloHit pseudoLayer : N) :
  ¬ contains this pseudoLayer pCaloHit →
  this !! pseudoLayer ≠ Some ∅ →
  (AddCaloHit this pCaloHit pseudoLayer).1 = STATUS_CODE_SUCCESS ∧
  RemoveCaloHit (AddCaloHit this pCaloHit pseudoLayer).2 pCaloHit pseudoLayer
    = (STATUS_CODE_SUCCESS, this).
Proof.
  intros Hnot Hbucket. unfold contains in Hnot.
  destruct (this !! pseudoLayer) as [b|] eqn:Hb.
  - assert (Hin : pCaloHit ∉ b) by (intros ?; apply Hnot; eauto).
    rewrite (AddCaloHit_new_hit _ _ _ _ Hb Hin). split; [done|]. simpl.
    unfold RemoveCaloHit, StdSet.find, StdSet.erase, StdSet.empty.
    rewrite lookup_insert_eq. rewrite bool_decide_eq_true_2 by set_solver. simpl.
    assert (Hsame : (b ∪ {[pCaloHit]}) ∖ {[pCaloHit]} = b) by set_solver.
    rewrite Hsame. rewrite bool_decide_eq_false_2 by congruence.
    rewrite insert_insert_eq. by rewrite insert_id.
  - rewrite (AddCaloHit_absent _ _ _ Hb). split; [done|]. simpl.
    rewrite RemoveCaloHit_last_hit by apply lookup_insert_eq.
    rewrite delete_insert_eq. by rewrite delete_id.
Qed.

Lemma AddCaloHit_then_RemoveCaloHit_witness :
  RemoveCaloHit (AddCaloHit (run [OpAddCaloHit 11 5]) 12 5).2 12 5
    = (STATUS_CODE_SUCCESS, run [OpAddCaloHit 11 5]).
Proof.
  apply (AddCaloHit_then_RemoveCaloHit (run [OpAddCaloHit 11 5]) 12 5).
  - apply (bool_decide_unpack _). vm_compute. exact I.
  - vm_compute. discriminate.
Defined.

(** X3. Removing a hit that the layer holds and adding it again gives back
    the container as it was, whether or not the removal erased the bucket. *)
Theorem RemoveCaloHit_then_AddCaloHit (this : gmap N (gset N))
    (pCaloHit pseudoLayer : N) :
  contains this pseudoLayer pCaloHit →
  (RemoveCaloHit this pCaloHit pseudoLayer).1 = STATUS_CODE_SUCCESS ∧
  AddCaloHit (RemoveCaloHit this pCaloHit pseudoLayer).2 pCaloHit pseudoLayer
    = (STATUS_CODE_SUCCESS, this).
Proof.
  intros Hin. split; [by apply RemoveCaloHit_present|].
  destruct Hin as (b & Hb & Hin).
  unfold RemoveCaloHit, StdSet.find, StdSet.erase, StdSet.empty.
  rewrite Hb. rewrite bool_decide_eq_true_2 by done. simpl.
  case_bool_decide as Hempty; simpl.
  - rewrite AddCaloHit_absent by apply lookup_delete_eq.
    rewrite insert_delete_eq. f_equal. apply insert_id. rewrite Hb. f_equal.
    apply set_eq. intros hit. rewrite elem_of_singleton. split; [|by intros ->].
    intros Hhit. destruct (decide (hit = pCaloHit)) as [|Hne]; [done|].
    assert (Hdiff : hit ∈ b ∖ {[pCaloHit]})
      by (apply elem_of_difference; split; [done|by rewrite elem_of_singleton]).
    rewrite Hempty in Hdiff. by apply not_elem_of_empty in Hdiff.
  - rewrite (AddCaloHit_new_hit _ _ _ (b ∖ {[pCaloHit]}));
      [|apply lookup_insert_eq|set_solver].
    rewrite insert_insert_eq. f_equal. apply insert_id. rewrite Hb. f_equal.
    apply set_eq. intros hit. rewrite elem_of_union, elem_of_difference,
      elem_of_singleton.
    destruct (decide (hit = pCaloHit)) as [->|Hne]; naive_solver.
Qed.

Lemma RemoveCaloHit_then_AddCaloHit_witness :
  AddCaloHit (RemoveCaloHit (run [OpAddCaloHit 11 5]) 11 5).2 11 5
    = (STATUS_CODE_SUCCESS, run [OpAddCaloHit 11 5]).
Proof.
  apply (RemoveCaloHit_then_AddCaloHit (run [OpAddCaloHit 11 5]) 11 5).
  apply (bool_decide_unpack _). vm_compute. exact I.
Defined.

(** ** Add and Remove *)

Section Merge.
Implicit Types this rhs : gmap N (gset N).
Implicit Types visits : list (N * N).

Lemma Add_loop_app visits1 visits2 this :
  Add_loop this (visits1 ++ visits2) =
    if bool_decide ((Add_loop this visits1).1 ≠ STATUS_CODE_SUCCESS)
    then Add_loop this visits1
    else Add_loop (Add_loop this visits1).2 visits2.
Proof.
  revert this. induction visits1 as [|v visits1 IH]; intros this; [done|].
  simpl. unfold PANDORA_RETURN_RESULT_IF_ne.
  case_bool_decide as Hadd; [|apply IH].
  rewrite bool_decide_eq_true_2 by done. by destruct (AddCaloHit _ _ _).
Qed.

Lemma Add_loop_status visits this :
  (Add_loop this visits).1 = STATUS_CODE_SUCCESS ∨
  (Add_loop this visits).1 = STATUS_CODE_ALREADY_PRESENT.
Proof.
  revert this. induction visits as [|v visits IH]; intros this; [by left|].
  simpl. unfold PANDORA_RETURN_RESULT_IF_ne.
  destruct (AddCaloHit_status this v.2 v.1) as [[_ ->]|[_ Hok]]; simpl.
  - by right.
  - rewrite Hok. simpl. apply IH.
Qed.

Lemma Add_loop_success_iff visits this :
  (Add_loop this visits).1 = STATUS_CODE_SUCCESS
  ↔ NoDup visits ∧ ∀ layer hit, (layer, hit) ∈ visits → ¬ contains this layer hit.
Proof.
  revert this. induction visits as [|[l h] visits IH]; intros this.
  { simpl. split; [|done]. intros _. split; [constructor|].
    intros layer hit Hin. by apply elem_of_nil in Hin. }
  simpl. unfold PANDORA_RETURN_RESULT_IF_ne. rewrite NoDup_cons.
  destruct (AddCaloHit_status this h l) as [[Hin Heq]|[Hnot Hok]]; simpl.
  - rewrite Heq. simpl. split; [done|]. intros [_ Hdisjoint]. exfalso.
    apply (Hdisjoint l h); [apply elem_of_cons; by left|done].
  - rewrite Hok. simpl. rewrite IH. split.
    + intros [Hnd Hdisjoint]. split_and!; [|done|].
      * intros Hmem. apply (Hdisjoint l h Hmem).
        apply contains_AddCaloHit. by right.
      * intros layer hit [[= -> ->]|Hmem]%elem_of_cons; [done|].
        intros Hc. apply (Hdisjoint layer hit Hmem).
        apply contains_AddCaloHit. by left.
    + intros [[Hfresh Hnd] Hdisjoint]. split; [done|].
      intros layer hit Hmem [Hc|[-> ->]]%contains_AddCaloHit; [|done].
      apply (Hdisjoint layer hit); [apply elem_of_cons; by right|done].
Qed.

Lemma contains_Add_loop_success visits this layer hit :
  (Add_loop this visits).1 = STATUS_CODE_SUCCESS →
  contains (Add_loop this visits).2 layer hit
  ↔ contains this layer hit ∨ (layer, hit) ∈ visits.
Proof.
  revert this. induction visits as [|[l h] visits IH]; intros this; simpl.
  { intros _. rewrite elem_of_nil. naive_solver. }
  unfold PANDORA_RETURN_RESULT_IF_ne.
  case_bool_decide as Hadd; [done|]. intros Hok.
  rewrite (IH _ Hok), contains_AddCaloHit, elem_of_cons. naive_solver.
Qed.

Lemma contains_Add_loop_between visits this layer hit :
  (contains this layer hit → contains (Add_loop this visits).2 layer hit) ∧
  (contains (Add_loop this visits).2 layer hit →
     contains this layer hit ∨ (layer, hit) ∈ visits).
Proof.
  revert this. induction visits as [|[l h] visits IH]; intros this; simpl.
  { naive_solver. }
  unfold PANDORA_RETURN_RESULT_IF_ne.
  case_bool_decide as Hadd; simpl.
  - rewrite contains_AddCaloHit, elem_of_cons. naive_solver.
  - destruct (IH (AddCaloHit this h l).2) as [IH1 IH2].
    rewrite contains_AddCaloHit in IH1, IH2. rewrite elem_of_cons. naive_solver.
Qed.

Lemma contains_Remove_loop visits this layer hit :
  contains (Remove_loop this visits).2 layer hit
  ↔ contains this layer hit ∧ (layer, hit) ∉ visits.
Proof.
  rewrite Remove_loop_succeeds. simpl.
  revert this. induction visits as [|[l h] visits IH]; intros this; simpl.
  { rewrite elem_of_nil. naive_solver. }
  rewrite IH, contains_RemoveCaloHit, not_elem_of_cons. naive_solver.
Qed.

Lemma hits_in_order_NoDup this : NoDup (hits_in_order this).
Proof. apply StronglySorted_visit_lt_NoDup, hits_in_order_sorted. Qed.

Lemma Add_success_iff this rhs :
  (Add this rhs).1 = STATUS_CODE_SUCCESS
  ↔ ∀ layer hit, contains rhs layer hit → ¬ contains this layer hit.
Proof.
  unfold Add. rewrite Add_loop_success_iff. split.
  - intros [_ Hdisjoint] layer hit Hin. by apply Hdisjoint, hits_in_order_elem_of.
  - intros Hdisjoint. split; [apply hits_in_order_NoDup|].
    intros layer hit Hin. by apply Hdisjoint, hits_in_order_elem_of.
Qed.

Lemma contains_Add_success this rhs layer hit :
  (Add this rhs).1 = STATUS_CODE_SUCCESS →
  contains (Add this rhs).2 layer hit ↔ contains this layer hit ∨ contains rhs layer hit.
Proof.
  intros Hok. unfold Add in *.
  by rewrite contains_Add_loop_success, hits_in_order_elem_of.
Qed.

Lemma contains_Remove this rhs layer hit :
  contains (Remove this rhs).2 layer hit
  ↔ contains this layer hit ∧ ¬ contains rhs layer hit.
Proof. unfold Remove. by rewrite contains_Remove_loop, hits_in_order_elem_of. Qed.
End Merge.

(** X4. [Add] returns [STATUS_CODE_SUCCESS] exactly when no (layer, hit)
    pair of the other container is already in this one, and
    [STATUS_CODE_ALREADY_PRESENT] otherwise, never another status. After a
    success the container holds the pairs of both; in every case it still
    holds what it held, and nothing that was in neither. *)
Theorem Add_succeeds_iff_disjoint (this rhs : gmap N (gset N)) :
  ((Add this rhs).1 = STATUS_CODE_SUCCESS
     ↔ ∀ layer hit, contains rhs layer hit → ¬ contains this layer hit) ∧
  ((Add this rhs).1 = STATUS_CODE_SUCCESS ∨
   (Add this rhs).1 = STATUS_CODE_ALREADY_PRESENT) ∧
  ((Add this rhs).1 = STATUS_CODE_SUCCESS →
     ∀ layer hit,
       contains (Add this rhs).2 layer hit
       ↔ contains this layer hit ∨ contains rhs layer hit) ∧
  (∀ layer hit,
     (contains this layer hit → contains (Add this rhs).2 layer hit) ∧
     (contains (Add this rhs).2 layer hit →
        contains this layer hit ∨ contains rhs layer hit)).
Proof.
  split_and!.
  - apply Add_success_iff.
  - apply Add_loop_status.
  - intros Hok layer hit. by apply contains_Add_success.
  - intros layer hit. unfold Add.
    rewrite <- (hits_in_order_elem_of rhs). apply contains_Add_loop_between.
Qed.

(** X5. [Add] is left at the first pair of the other container that this
    one already holds: with the pairs visited before it new to this
    container, [Add] returns [STATUS_CODE_ALREADY_PRESENT] and the container
    keeps those pairs added, without the pairs that come after. *)
Theorem Add_stops_at_first_clash (this rhs : gmap N (gset N))
    (before after : list (N * N)) (clash : N * N) :
  hits_in_order rhs = before ++ clash :: after →
  (∀ layer hit, (layer, hit) ∈ before → ¬ contains this layer hit) →
  contains this clash.1 clash.2 →
  (Add this rhs).1 = STATUS_CODE_ALREADY_PRESENT ∧
  ∀ layer hit,
    contains (Add this rhs).2 layer hit
    ↔ contains this layer hit ∨ (layer, hit) ∈ before.
Proof.
  intros Hvisits Hnew Hclash.
  assert (Hnd : NoDup before).
  { pose proof (hits_in_order_NoDup rhs) as Hnd. rewrite Hvisits in Hnd.
    by apply NoDup_app in Hnd as [Hnd _]. }
  assert (Hbefore : (Add_loop this before).1 = STATUS_CODE_SUCCESS).
  { by apply Add_loop_success_iff. }
  assert (Hstop : Add this rhs =
            (STATUS_CODE_ALREADY_PRESENT, (Add_loop this before).2)).
  { unfold Add. rewrite Hvisits, Add_loop_app.
    rewrite bool_decide_eq_false_2 by (intros Hne; by apply Hne).
    simpl. unfold PANDORA_RETURN_RESULT_IF_ne.
    destruct (AddCaloHit_status (Add_loop this before).2 clash.2 clash.1)
      as [[_ ->]|[Hnot _]]; [done|].
    exfalso. apply Hnot. apply contains_Add_loop_success; [done|by left]. }
  rewrite Hstop. split; [done|]. intros layer hit. simpl.
  by apply contains_Add_loop_success.
Qed.

Lemma Add_stops_at_first_clash_witness :
  (Add (run [OpAddCaloHit 20 5])
       (run [OpAddCaloHit 10 5; OpAddCaloHit 20 5; OpAddCaloHit 30 7])).1
    = STATUS_CODE_ALREADY_PRESENT ∧
  ∀ layer hit,
    contains (Add (run [OpAddCaloHit 20 5])
                (run [OpAddCaloHit 10 5; OpAddCaloHit 20 5; OpAddCaloHit 30 7])).2
      layer hit
    ↔ contains (run [OpAddCaloHit 20 5]) layer hit ∨ (layer, hit) ∈ [(5, 10)].
Proof.
  apply (Add_stops_at_first_clash (run [OpAddCaloHit 20 5])
           (run [OpAddCaloHit 10 5; OpAddCaloHit 20 5; OpAddCaloHit 30 7])
           [(5, 10)] [(7, 30)] (5, 20)).
  - vm_compute. reflexivity.
  - intros layer hit [= -> ->]%list_elem_of_singleton.
    apply (bool_decide_unpack _). vm_compute. exact I.
  - apply (bool_decide_unpack _). vm_compute. exact I.
Defined.

(** X6. [Remove] takes out of this container exactly the pairs that the
    other container holds: a pair is in the container afterwards when it was
    in it before and is not in the other one. *)
Theorem Remove_is_difference (this rhs : gmap N (gset N)) (layer hit : N) :
  contains (Remove this rhs).2 layer hit
  ↔ contains this layer hit ∧ ¬ contains rhs layer hit.
Proof.
  unfold Remove. rewrite contains_Remove_loop.
  by rewrite hits_in_order_elem_of.
Qed.

(** X7. When this container has no empty bucket and the other container
    holds every pair of this one, [Remove] leaves the container empty. *)
Theorem Remove_superset_empties (this rhs : gmap N (gset N)) :
  no_empty_bucket this →
  (∀ layer hit, contains this layer hit → contains rhs layer hit) →
  Remove this rhs = (STATUS_CODE_SUCCESS, ∅).
Proof.
  intros Hinv Hsub.
  assert (Hok : (Remove this rhs).1 = STATUS_CODE_SUCCESS).
  { unfold Remove. by rewrite Remove_loop_succeeds. }
  destruct (Remove this rhs) as [statusCode this'] eqn:Hremove.
  simpl in Hok. subst statusCode. f_equal.
  apply contains_ext.
  - replace this' with (Remove this rhs).2 by (by rewrite Hremove).
    by apply Remove_loop_no_empty_bucket.
  - apply no_empty_bucket_empty.
  - intros layer hit. replace this' with (Remove this rhs).2 by (by rewrite Hremove).
    rewrite contains_Remove. split; [naive_solver|].
    intros Hc. by apply contains_empty in Hc.
Qed.

Lemma Remove_superset_empties_witness :
  Remove (run [OpAddCaloHit 10 5; OpAddCaloHit 30 7])
         (run [OpAddCaloHit 10 5; OpAddCaloHit 20 5; OpAddCaloHit 30 7])
    = (STATUS_CODE_SUCCESS, ∅).
Proof.
  apply Remove_superset_empties.
  - apply foldl_perform_no_empty_bucket, no_empty_bucket_empty.
  - intros layer hit Hc.
    apply hits_in_order_elem_of in Hc. apply hits_in_order_elem_of.
    vm_compute in Hc. vm_compute.
    repeat (apply elem_of_cons in Hc as [->|Hc]; [set_solver|]).
    by apply elem_of_nil in Hc.
Defined.

(** ** Copies *)

Section Copies.
Implicit Types this rhs : gmap N (gset N).

Lemma Add_to_new_copies rhs :
  (Add OrderedCaloHitList_new rhs).1 = STATUS_CODE_SUCCESS ∧
  no_empty_bucket (Add OrderedCaloHitList_new rhs).2 ∧
  ∀ layer hit,
    contains (Add OrderedCaloHitList_new rhs).2 layer hit ↔ contains rhs layer hit.
Proof.
  assert (Hok : (Add OrderedCaloHitList_new rhs).1 = STATUS_CODE_SUCCESS).
  { apply Add_success_iff. intros layer hit _. apply contains_empty. }
  split_and!; [done| |].
  - apply Add_loop_no_empty_bucket, no_empty_bucket_empty.
  - intros layer hit. rewrite contains_Add_success by done.
    split; [|by right]. intros [Hc|Hc]; [|done]. by apply contains_empty in Hc.
Qed.

Lemma same_pairs_same_visits this rhs :
  (∀ layer hit, contains this layer hit ↔ contains rhs layer hit) →
  hits_in_order this = hits_in_order rhs.
Proof.
  intros Hsame. apply hits_in_order_unique; [apply hits_in_order_sorted|].
  intros layer hit. by rewrite hits_in_order_elem_of.
Qed.
End Copies.

(** X8. The copy constructor never throws. The copy holds the pairs of the
    original and no empty bucket, [GetCaloHitVector] gives the same vector
    for both, and the copy is the original itself when the original has no
    empty bucket. *)
Theorem copy_constructor_copies (rhs : gmap N (gset N)) :
  ∃ copy,
    OrderedCaloHitList_copy rhs = Returned copy ∧
    no_empty_bucket copy ∧
    (∀ layer hit, contains copy layer hit ↔ contains rhs layer hit) ∧
    (∀ caloHitVector,
       GetCaloHitVector copy caloHitVector = GetCaloHitVector rhs caloHitVector) ∧
    (no_empty_bucket rhs → copy = rhs).
Proof.
  destruct (Add_to_new_copies rhs) as (Hok & Hinv & Hsame).
  exists (Add OrderedCaloHitList_new rhs).2.
  unfold OrderedCaloHitList_copy, PANDORA_THROW_RESULT_IF_ne. rewrite Hok.
  split_and!; [done|done|done| |].
  - intros caloHitVector. rewrite !GetCaloHitVector_visits.
    by rewrite (same_pairs_same_visits _ rhs).
  - intros Hrhs. by apply contains_ext.
Qed.

Lemma copy_constructor_copies_witness :
  ∃ copy,
    OrderedCaloHitList_copy (run [OpAddCaloHit 20 5; OpAddCaloHit 10 5]) = Returned copy ∧
    copy = run [OpAddCaloHit 20 5; OpAddCaloHit 10 5].
Proof.
  destruct (copy_constructor_copies (run [OpAddCaloHit 20 5; OpAddCaloHit 10 5]))
    as (copy & Hcopy & _ & _ & _ & Hsame).
  exists copy. split; [exact Hcopy|].
  apply Hsame, foldl_perform_no_empty_bucket, no_empty_bucket_empty.
Defined.

(** X9. [operator=] between two containers of the store never throws and
    returns true. Afterwards the container assigned to holds the pairs of
    the other one, every other container of the store is as it was, and an
    assignment of a container to itself changes nothing. *)
Theorem operator_assign_copies (objects : gmap N (gmap N (gset N)))
    (this rhs : N) (self other : gmap N (gset N)) :
  objects !! this = Some self →
  objects !! rhs = Some other →
  ∃ self',
    operator_assign objects this rhs = Some (Returned (true, <[this := self']> objects)) ∧
    (∀ layer hit, contains self' layer hit ↔ contains other layer hit) ∧
    (this = rhs → <[this := self']> objects = objects) ∧
    (this ≠ rhs → no_empty_bucket self' ∧ (no_empty_bucket other → self' = other)).
Proof.
  intros Hself Hother. unfold operator_assign. rewrite Hself, Hother. simpl.
  case_bool_decide as Halias.
  - subst rhs. exists self. rewrite insert_id by done.
    assert (self = other) by congruence. subst other. by split_and!.
  - assert (Hreset :
      (if negb (StdMap.empty self)
       then PANDORA_THROW_RESULT_IF_ne STATUS_CODE_SUCCESS (Reset self)
       else Returned self) = Returned ∅).
    { unfold StdMap.empty. case_bool_decide as Hsize; simpl.
      - f_equal. by apply map_size_empty_iff.
      - unfold Reset, StdMap.clear, StdMap.empty.
        by rewrite bool_decide_eq_true_2 by apply map_size_empty. }
    rewrite Hreset.
    destruct (Add_to_new_copies other) as (Hok & Hinv & Hsame).
    unfold OrderedCaloHitList_new in *.
    exists (Add ∅ other).2. rewrite Hok.
    split_and!; [done|done|done|].
    intros _. split; [done|]. intros Hrhs. by apply contains_ext.
Qed.

Lemma operator_assign_copies_witness :
  ∃ self',
    operator_assign
      (<[2 := run [OpAddCaloHit 10 5]]> (<[1 := run [OpAddCaloHit 30 7]]> ∅)) 1 2
    = Some (Returned (true,
        <[1 := self']>
          (<[2 := run [OpAddCaloHit 10 5]]> (<[1 := run [OpAddCaloHit 30 7]]> ∅)))) ∧
    ∀ layer hit, contains self' layer hit ↔ contains (run [OpAddCaloHit 10 5]) layer hit.
Proof.
  destruct (operator_assign_copies
    (<[2 := run [OpAddCaloHit 10 5]]> (<[1 := run [OpAddCaloHit 30 7]]> ∅)) 1 2
    (run [OpAddCaloHit 30 7]) (run [OpAddCaloHit 10 5]))
    as (self' & Hassign & Hsame & _).
  - by rewrite lookup_insert_ne, lookup_insert_eq.
  - by rewrite lookup_insert_eq.
  - exists self'. by split.
Defined.

(** ** Sequences of calls *)

Section Sequences.
Implicit Types this : gmap N (gset N).
Implicit Types pairs : list (N * N).

Lemma contains_add_all pairs this layer hit :
  contains (foldl perform this ((λ p, OpAddCaloHit p.2 p.1) <$> pairs)) layer hit
  ↔ contains this layer hit ∨ (layer, hit) ∈ pairs.
Proof.
  revert this. induction pairs as [|[l h] pairs IH]; intros this; simpl.
  { rewrite elem_of_nil. naive_solver. }
  rewrite IH, contains_AddCaloHit, elem_of_cons. naive_solver.
Qed.

Lemma contains_remove_all pairs this layer hit :
  contains (foldl perform this ((λ p, OpRemoveCaloHit p.2 p.1) <$> pairs)) layer hit
  ↔ contains this layer hit ∧ (layer, hit) ∉ pairs.
Proof.
  revert this. induction pairs as [|[l h] pairs IH]; intros this; simpl.
  { rewrite elem_of_nil. naive_solver. }
  rewrite IH, contains_RemoveCaloHit, not_elem_of_cons. naive_solver.
Qed.
End Sequences.

(** X10. Adding pairs to a fresh container and then removing each of them,
    in any order and with whatever other removals among them, leaves the
    container empty, so that every layer query then returns
    [STATUS_CODE_NOT_FOUND]. *)
Theorem add_all_then_remove_all_is_empty (added removed : list (N * N)) :
  (∀ pair, pair ∈ added → pair ∈ removed) →
  run (((λ p, OpAddCaloHit p.2 p.1) <$> added)
         ++ ((λ p, OpRemoveCaloHit p.2 p.1) <$> removed)) = ∅ ∧
  ∀ pseudoLayer pCaloHitList,
    GetCaloHitsInPseudoLayer
      (run (((λ p, OpAddCaloHit p.2 p.1) <$> added)
              ++ ((λ p, OpRemoveCaloHit p.2 p.1) <$> removed)))
      pseudoLayer pCaloHitList = (STATUS_CODE_NOT_FOUND, pCaloHitList).
Proof.
  intros Hsub.
  assert (Hempty :
    run (((λ p, OpAddCaloHit p.2 p.1) <$> added)
           ++ ((λ p, OpRemoveCaloHit p.2 p.1) <$> removed)) = ∅).
  { apply contains_ext.
    - apply foldl_perform_no_empty_bucket, no_empty_bucket_empty.
    - apply no_empty_bucket_empty.
    - intros layer hit. unfold run. rewrite foldl_app.
      rewrite contains_remove_all, contains_add_all.
      split; [|intros Hc; by apply contains_empty in Hc].
      intros [[Hc|Hin] Hnot]; [by apply contains_empty in Hc|].
      exfalso. by apply Hnot, Hsub. }
  rewrite Hempty. split; [done|].
  intros pseudoLayer pCaloHitList. unfold GetCaloHitsInPseudoLayer.
  by rewrite lookup_empty.
Qed.

Lemma add_all_then_remove_all_is_empty_witness :
  run (((λ p, OpAddCaloHit p.2 p.1) <$> [(5, 10); (5, 20); (7, 30)])
         ++ ((λ p, OpRemoveCaloHit p.2 p.1) <$> [(7, 30); (5, 20); (9, 40); (5, 10)]))
    = ∅.
Proof.
  apply (add_all_then_remove_all_is_empty
           [(5, 10); (5, 20); (7, 30)] [(7, 30); (5, 20); (9, 40); (5, 10)]).
  intros pair Hin. repeat (apply elem_of_cons in Hin as [->|Hin]; [set_solver|]).
  by apply elem_of_nil in Hin.
Defined.

(** X11. For two containers without empty buckets that share no pair,
    [Add] succeeds in both directions and gives the same container, so the
    same vector from [GetCaloHitVector]. *)
Theorem Add_commutes_when_disjoint (this rhs : gmap N (gset N)) :
  no_empty_bucket this → no_empty_bucket rhs →
  (∀ layer hit, contains rhs layer hit → ¬ contains this layer hit) →
  (Add this rhs).1 = STATUS_CODE_SUCCESS ∧
  Add rhs this = Add this rhs.
Proof.
  intros Hthis Hrhs Hdisjoint.
  assert (Hok1 : (Add this rhs).1 = STATUS_CODE_SUCCESS) by (by apply Add_success_iff).
  assert (Hok2 : (Add rhs this).1 = STATUS_CODE_SUCCESS).
  { apply Add_success_iff. intros layer hit Hc1 Hc2. by apply (Hdisjoint layer hit). }
  split; [done|].
  destruct (Add this rhs) as [s1 r1] eqn:H1, (Add rhs this) as [s2 r2] eqn:H2.
  simpl in *. subst s1 s2. f_equal.
  replace r1 with (Add this rhs).2 by (by rewrite H1).
  replace r2 with (Add rhs this).2 by (by rewrite H2).
  apply contains_ext.
  - by apply Add_loop_no_empty_bucket.
  - by apply Add_loop_no_empty_bucket.
  - intros layer hit. rewrite !contains_Add_success by (by rewrite ?H1, ?H2).
    naive_solver.
Qed.

Lemma Add_commutes_when_disjoint_witness :
  Add (run [OpAddCaloHit 30 7; OpAddCaloHit 20 5]) (run [OpAddCaloHit 10 5])
    = Add (run [OpAddCaloHit 10 5]) (run [OpAddCaloHit 30 7; OpAddCaloHit 20 5]).
Proof.
  apply (Add_commutes_when_disjoint (run [OpAddCaloHit 10 5])
           (run [OpAddCaloHit 30 7; OpAddCaloHit 20 5])).
  - apply foldl_perform_no_empty_bucket, no_empty_bucket_empty.
  - apply foldl_perform_no_empty_bucket, no_empty_bucket_empty.
  - intros layer hit Hc1 Hc2.
    apply hits_in_order_elem_of in Hc1. apply hits_in_order_elem_of in Hc2.
    vm_compute in Hc1. vm_compute in Hc2.
    apply list_elem_of_singleton in Hc2 as [= -> ->].
    repeat (apply elem_of_cons in Hc1 as [[=]|Hc1]).
    by apply elem_of_nil in Hc1.
Defined.

(** X12. On a container that has only seen calls of its member functions,
    [GetCaloHitsInPseudoLayer] returns [STATUS_CODE_SUCCESS] exactly when
    the layer holds a hit, with a bucket that holds the hits of the layer
    and no other; otherwise it returns [STATUS_CODE_NOT_FOUND] and leaves
    its output parameter alone. *)
Theorem GetCaloHitsInPseudoLayer_found_iff (ops : list Operation)
    (pseudoLayer : N) (pCaloHitList : gset N) :
  ((GetCaloHitsInPseudoLayer (run ops) pseudoLayer pCaloHitList).1 = STATUS_CODE_SUCCESS
     ↔ ∃ hit, contains (run ops) pseudoLayer hit) ∧
  ((GetCaloHitsInPseudoLayer (run ops) pseudoLayer pCaloHitList).1 = STATUS_CODE_SUCCESS →
     ∀ hit, hit ∈ (GetCaloHitsInPseudoLayer (run ops) pseudoLayer pCaloHitList).2
            ↔ contains (run ops) pseudoLayer hit) ∧
  ((GetCaloHitsInPseudoLayer (run ops) pseudoLayer pCaloHitList).1 ≠ STATUS_CODE_SUCCESS →
     GetCaloHitsInPseudoLayer (run ops) pseudoLayer pCaloHitList
       = (STATUS_CODE_NOT_FOUND, pCaloHitList)).
Proof.
  assert (Hinv : no_empty_bucket (run ops)).
  { apply foldl_perform_no_empty_bucket, no_empty_bucket_empty. }
  unfold GetCaloHitsInPseudoLayer, contains.
  destruct (run ops !! pseudoLayer) as [b|] eqn:Hb; simpl.
  - split_and!; [|naive_solver|done].
    split; [|done]. intros _.
    destruct (set_choose_L b (Hinv _ _ Hb)) as [hit Hin]. eauto.
  - split_and!; [|done|done]. split; [done|]. intros (? & ? & [=] & _).
Qed.

(** ** ResetCurrentListToAlgorithmInputList and the list queries *)

Section CurrentList.
Import TrackManager.

Lemma set_currentListName_same (this : t) :
  set_currentListName this (m_currentListName this) = this.
Proof. by destruct this. Qed.

Lemma Reset_registered (this : t) (pAlgorithm : N) (info : AlgorithmInfo) :
  m_algorithmInfoMap this !! pAlgorithm = Some info →
  ResetCurrentListToAlgorithmInputList this pAlgorithm
    = (STATUS_CODE_SUCCESS, set_currentListName this (m_parentListName info)).
Proof.
  intros Hinfo. unfold ResetCurrentListToAlgorithmInputList, GetAlgorithmInputListName.
  by rewrite Hinfo.
Qed.

Lemma Reset_unregistered (this : t) (pAlgorithm : N) :
  m_algorithmInfoMap this !! pAlgorithm = None →
  ResetCurrentListToAlgorithmInputList this pAlgorithm
    = (if string_empty (m_currentListName this)
       then STATUS_CODE_NOT_INITIALIZED else STATUS_CODE_SUCCESS, this).
Proof.
  intros Hinfo.
  unfold ResetCurrentListToAlgorithmInputList, GetAlgorithmInputListName,
    GetCurrentListName.
  rewrite Hinfo.
  destruct (string_empty (m_currentListName this)); simpl;
    by rewrite set_currentListName_same.
Qed.
End CurrentList.

(** X13. [ResetCurrentListToAlgorithmInputList] changes no member but the
    current list name. For an algorithm with an entry in the algorithm info
    map it returns [STATUS_CODE_SUCCESS] and makes the stored parent list
    name the current one; for an algorithm without an entry it leaves the
    manager as it was and returns [STATUS_CODE_NOT_INITIALIZED] when the
    current list name is empty, [STATUS_CODE_SUCCESS] otherwise. Calling it
    a second time changes nothing more. *)
Theorem ResetCurrentListToAlgorithmInputList_effect (this : TrackManager.t)
    (pAlgorithm : N) :
  (∀ info, TrackManager.m_algorithmInfoMap this !! pAlgorithm = Some info →
     TrackManager.ResetCurrentListToAlgorithmInputList this pAlgorithm
       = (STATUS_CODE_SUCCESS,
          TrackManager.set_currentListName this (TrackManager.m_parentListName info))) ∧
  (TrackManager.m_algorithmInfoMap this !! pAlgorithm = None →
     TrackManager.ResetCurrentListToAlgorithmInputList this pAlgorithm
       = (if TrackManager.string_empty (TrackManager.m_currentListName this)
          then STATUS_CODE_NOT_INITIALIZED else STATUS_CODE_SUCCESS, this)) ∧
  (∃ name,
     (TrackManager.ResetCurrentListToAlgorithmInputList this pAlgorithm).2
       = TrackManager.set_currentListName this name) ∧
  TrackManager.ResetCurrentListToAlgorithmInputList
    (TrackManager.ResetCurrentListToAlgorithmInputList this pAlgorithm).2 pAlgorithm
    = TrackManager.ResetCurrentListToAlgorithmInputList this pAlgorithm.
Proof.
  split_and!.
  - apply Reset_registered.
  - apply Reset_unregistered.
  - by eexists.
  - destruct (TrackManager.m_algorithmInfoMap this !! pAlgorithm) as [info|] eqn:Hinfo.
    + rewrite (Reset_registered this pAlgorithm info Hinfo). simpl.
      by rewrite (Reset_registered _ pAlgorithm info).
    + rewrite (Reset_unregistered this pAlgorithm Hinfo). simpl.
      by rewrite (Reset_unregistered this pAlgorithm Hinfo).
Qed.

(** X14. After [ResetCurrentListToAlgorithmInputList] for an algorithm with
    an entry, [GetCurrentListName] yields the stored parent list name when
    that name is not empty. When the stored name is empty (the algorithm
    was registered before a current list was set) the reset still returns
    [STATUS_CODE_SUCCESS], and [GetCurrentListName] then returns
    [STATUS_CODE_NOT_INITIALIZED]. *)
Theorem Reset_then_GetCurrentListName (this : TrackManager.t) (pAlgorithm : N)
    (info : TrackManager.AlgorithmInfo) (trackListName : string) :
  TrackManager.m_algorithmInfoMap this !! pAlgorithm = Some info →
  (TrackManager.ResetCurrentListToAlgorithmInputList this pAlgorithm).1
    = STATUS_CODE_SUCCESS ∧
  TrackManager.GetCurrentListName
    (TrackManager.ResetCurrentListToAlgorithmInputList this pAlgorithm).2 trackListName
  = if TrackManager.string_empty (TrackManager.m_parentListName info)
    then (STATUS_CODE_NOT_INITIALIZED, trackListName)
    else (STATUS_CODE_SUCCESS, TrackManager.m_parentListName info).
Proof.
  intros Hinfo. rewrite (Reset_registered this pAlgorithm info Hinfo).
  split; [done|]. done.
Qed.

Lemma Reset_then_GetCurrentListName_witness :
  (TrackManager.ResetCurrentListToAlgorithmInputList
     {| TrackManager.m_nameToTrackListMap := ∅;
        TrackManager.m_algorithmInfoMap :=
          {[ 4096 := {| TrackManager.m_parentListName := EmptyString;
                        TrackManager.m_temporaryListNames := ∅;
                        TrackManager.m_numberOfListsCreated := 0 |} ]};
        TrackManager.m_currentListName := "input";
        TrackManager.m_savedLists := ∅;
        TrackManager.m_uidToTrackMap := ∅;
        TrackManager.m_parentDaughterRelationMap := [];
        TrackManager.m_siblingRelationMap := [] |} 4096).1 = STATUS_CODE_SUCCESS ∧
  TrackManager.GetCurrentListName
    (TrackManager.ResetCurrentListToAlgorithmInputList
       {| TrackManager.m_nameToTrackListMap := ∅;
          TrackManager.m_algorithmInfoMap :=
            {[ 4096 := {| TrackManager.m_parentListName := EmptyString;
                          TrackManager.m_temporaryListNames := ∅;
                          TrackManager.m_numberOfListsCreated := 0 |} ]};
          TrackManager.m_currentListName := "input";
          TrackManager.m_savedLists := ∅;
          TrackManager.m_uidToTrackMap := ∅;
          TrackManager.m_parentDaughterRelationMap := [];
          TrackManager.m_siblingRelationMap := [] |} 4096).2 "out"
  = (STATUS_CODE_NOT_INITIALIZED, "out").
Proof.
  apply (Reset_then_GetCurrentListName _ 4096
           {| TrackManager.m_parentListName := EmptyString;
              TrackManager.m_temporaryListNames := ∅;
              TrackManager.m_numberOfListsCreated := 0 |} "out").
  apply lookup_singleton_eq.
Defined.

(** X15. [GetAlgorithmInputList] looks up, with [GetList], the name that
    [GetAlgorithmInputListName] yields whenever the latter succeeds, and
    for an algorithm without an entry it is [GetCurrentList]. Unlike
    [GetCurrentListName], both write the name output in every case: with
    no entry and an empty current list name, [GetAlgorithmInputListName]
    returns [STATUS_CODE_NOT_INITIALIZED] and keeps the output, while
    [GetAlgorithmInputList] overwrites it with the empty name and returns
    what [GetList] returns for that name. *)
Theorem GetAlgorithmInputList_agrees_with_name
    (GetList : TrackManager.t → string → gset N → StatusCode * gset N)
    (this : TrackManager.t) (pAlgorithm : N) (pTrackList : gset N)
    (trackListName : string) :
  (∀ name,
     TrackManager.GetAlgorithmInputListName this pAlgorithm trackListName
       = (STATUS_CODE_SUCCESS, name) →
     TrackManagerQueries.GetAlgorithmInputList GetList this pAlgorithm pTrackList
       trackListName = (GetList this name pTrackList, name)) ∧
  (TrackManager.m_algorithmInfoMap this !! pAlgorithm = None →
     TrackManagerQueries.GetAlgorithmInputList GetList this pAlgorithm pTrackList
       trackListName
     = TrackManagerQueries.GetCurrentList GetList this pTrackList trackListName) ∧
  (TrackManager.GetAlgorithmInputListName this pAlgorithm trackListName
     = (STATUS_CODE_NOT_INITIALIZED, trackListName) →
     TrackManagerQueries.GetAlgorithmInputList GetList this pAlgorithm pTrackList
       trackListName = (GetList this EmptyString pTrackList, EmptyString)).
Proof.
  unfold TrackManagerQueries.GetAlgorithmInputList, TrackManagerQueries.GetCurrentList,
    TrackManager.GetAlgorithmInputListName, TrackManager.GetCurrentListName.
  destruct (TrackManager.m_algorithmInfoMap this !! pAlgorithm) as [info|].
  - split_and!; [by intros name [= <-]|done|done].
  - destruct (TrackManager.m_currentListName this) as [|c name'] eqn:Hname; simpl.
    + split_and!; [done|done|done].
    + split_and!; [by intros name [= <-]|done|done].
Qed.

(** ** More on GetClusterHelixDistance *)

Section HelixDistance.
Context {float : Type} `{FloatOps float} {CartesianVector Helix : Type}.
Context (GetZ : CartesianVector → float).
Context (GetPositionVector : N → CartesianVector).
Context (GetDistanceToPoint : Helix → CartesianVector → StatusCode * CartesianVector).

Local Abbreviation hits_loop := (helix_hits_loop GetZ GetPositionVector GetDistanceToPoint).
Local Abbreviation layers_loop := (helix_layers_loop GetZ GetPositionVector GetDistanceToPoint).

Lemma uint_incr_lt (n : N) : uint_incr n < 2 ^ 32.
Proof. unfold uint_incr. by apply N.mod_lt. Qed.

Lemma uint_incr_le (n : N) : uint_incr n ≤ n + 1.
Proof. unfold uint_incr. by apply N.Div0.mod_le. Qed.

(** The status that leaves the loop over the hits is one that the helix
    gave for a hit of the bucket, and it is not a success. *)
Lemma helix_hits_loop_status (pHelix : Helix) (hits : list N)
    (st : HelixDistanceState) (statusCode : StatusCode) :
  hits_loop pHelix hits st = inl statusCode →
  statusCode ≠ STATUS_CODE_SUCCESS ∧
  ∃ pCaloHit, pCaloHit ∈ hits ∧
    (GetDistanceToPoint pHelix (GetPositionVector pCaloHit)).1 = statusCode.
Proof.
  revert st. induction hits as [|pCaloHit hits IH]; intros st; simpl; [done|].
  case_bool_decide as Hstatus.
  - intros [= <-]. split; [done|]. exists pCaloHit. split; [by left|done].
  - intros [Hne (hit & Hin & Hhit)]%IH. split; [done|].
    exists hit. split; [by right|done].
Qed.

Lemma helix_hits_loop_occupied (pHelix : Helix) (hits : list N)
    (st st' : HelixDistanceState) :
  hits_loop pHelix hits st = inr st' → nOccupiedLayers st' = nOccupiedLayers st.
Proof.
  revert st. induction hits as [|pCaloHit hits IH]; intros st; simpl.
  { by intros [= <-]. }
  case_bool_decide; [done|]. intros Hloop. by rewrite (IH _ Hloop).
Qed.

Lemma helix_layers_loop_status (fuel : nat) (pHelix : Helix)
    (orderedCaloHitList : gmap N (gset N)) (iLayer endLayer maxOccupiedLayers : N)
    (st : HelixDistanceState) (statusCode : StatusCode) :
  layers_loop fuel pHelix orderedCaloHitList iLayer endLayer maxOccupiedLayers st
    = Some (inl statusCode) →
  statusCode ≠ STATUS_CODE_SUCCESS ∧
  ∃ pseudoLayer pCaloHit,
    contains orderedCaloHitList pseudoLayer pCaloHit ∧
    (GetDistanceToPoint pHelix (GetPositionVector pCaloHit)).1 = statusCode.
Proof.
  revert iLayer st. induction fuel as [|fuel IH]; intros iLayer st; simpl.
  { by case_bool_decide. }
  case_bool_decide; [|done].
  destruct (orderedCaloHitList !! iLayer) as [bucket|] eqn:Hbucket; [|apply IH].
  case_bool_decide; [done|].
  destruct (hits_loop _ _ _) as [statusCode'|st'] eqn:Hhits; [|apply IH].
  intros [= <-]. apply helix_hits_loop_status in Hhits as [Hne (hit & Hin & Hhit)].
  split; [done|]. exists iLayer, hit. split; [|done].
  exists bucket. split; [done|]. by apply set_iter_elem_of.
Qed.

(** With no layer allowed, the loop is left at the first occupied layer,
    before any hit is counted. *)
Lemma helix_layers_loop_no_layer_allowed (fuel : nat) (pHelix : Helix)
    (orderedCaloHitList : gmap N (gset N)) (iLayer endLayer : N)
    (st : HelixDistanceState) result :
  nHits st = 0 → nOccupiedLayers st = 0 →
  layers_loop fuel pHelix orderedCaloHitList iLayer endLayer 0 st = Some result →
  ∃ st', result = inr st' ∧ nHits st' = 0.
Proof.
  intros Hhits Hocc. revert iLayer.
  induction fuel as [|fuel IH]; intros iLayer; simpl.
  { case_bool_decide; [done|]. intros [= <-]. eauto. }
  case_bool_decide; [|intros [= <-]; eauto].
  destruct (orderedCaloHitList !! iLayer) as [bucket|]; [|apply IH].
  rewrite Hocc. rewrite bool_decide_eq_true_2 by (by vm_compute).
  intros [= <-]. eauto.
Qed.

Lemma helix_layers_loop_unoccupied (fuel : nat) (pHelix : Helix)
    (orderedCaloHitList : gmap N (gset N)) (iLayer endLayer maxOccupiedLayers : N)
    (st : HelixDistanceState) :
  endLayer < 2 ^ 32 - 1 →
  (∀ layer, iLayer ≤ layer ≤ endLayer → orderedCaloHitList !! layer = None) →
  (N.to_nat (endLayer + 1 - iLayer) ≤ fuel)%nat →
  layers_loop fuel pHelix orderedCaloHitList iLayer endLayer maxOccupiedLayers st
    = Some (inr st).
Proof.
  intros Hend. revert iLayer.
  induction fuel as [|fuel IH]; intros iLayer Hnone Hfuel; simpl.
  { by rewrite bool_decide_eq_false_2 by lia. }
  case_bool_decide as Hle; [|done].
  rewrite Hnone by lia. rewrite (uint_incr_below iLayer) by lia.
  apply IH; [|lia]. intros layer Hlayer. apply Hnone. lia.
Qed.

(** With [endLayer] the greatest [unsigned int], the condition of the loop
    holds for every [iLayer], and nothing leaves the loop while the layers
    it meets are unoccupied. *)
Lemma helix_layers_loop_never_ends (fuel : nat) (pHelix : Helix)
    (iLayer maxOccupiedLayers : N) (st : HelixDistanceState) :
  iLayer < 2 ^ 32 →
  layers_loop fuel pHelix ∅ iLayer (2 ^ 32 - 1) maxOccupiedLayers st = None.
Proof.
  revert iLayer. induction fuel as [|fuel IH]; intros iLayer Hlayer; simpl.
  { by rewrite bool_decide_eq_true_2 by lia. }
  rewrite bool_decide_eq_true_2 by lia. rewrite lookup_empty.
  apply IH, uint_incr_lt.
Qed.
End HelixDistance.

(** X16. Whenever [GetClusterHelixDistance] returns a status other than
    [STATUS_CODE_SUCCESS], its two output parameters keep the values they
    had; and that status is [STATUS_CODE_INVALID_PARAMETER],
    [STATUS_CODE_NOT_FOUND], or a failure status that the helix gave for
    the distance to a hit of the cluster. *)
Theorem GetClusterHelixDistance_outputs_only_on_success
    {float : Type} `{FloatOps float} {CartesianVector Helix : Type}
    (GetZ : CartesianVector → float) (GetPositionVector : N → CartesianVector)
    (GetDistanceToPoint : Helix → CartesianVector → StatusCode * CartesianVector)
    (fuel : nat) (pCluster : Cluster) (pHelix : Helix)
    (startLayer endLayer maxOccupiedLayers : N)
    (closestDistanceToHit meanDistanceToHits closest mean : float)
    (statusCode : StatusCode) :
  GetClusterHelixDistance GetZ GetPositionVector GetDistanceToPoint fuel pCluster pHelix
    startLayer endLayer maxOccupiedLayers closestDistanceToHit meanDistanceToHits
  = Some (statusCode, closest, mean) →
  statusCode ≠ STATUS_CODE_SUCCESS →
  closest = closestDistanceToHit ∧ mean = meanDistanceToHits ∧
  (statusCode = STATUS_CODE_INVALID_PARAMETER ∨
   statusCode = STATUS_CODE_NOT_FOUND ∨
   ∃ pseudoLayer pCaloHit,
     contains (GetOrderedCaloHitList pCluster) pseudoLayer pCaloHit ∧
     (GetDistanceToPoint pHelix (GetPositionVector pCaloHit)).1 = statusCode).
Proof.
  unfold GetClusterHelixDistance. case_bool_decide.
  { intros [= <- <- <-] _. auto. }
  destruct (helix_layers_loop _ _ _ _ _ _ _ _ _ _) as [[statusCode'|st]|] eqn:Hloop;
    [| |done].
  - intros [= <- <- <-] _. split_and!; [done|done|]. right. right.
    by apply helix_layers_loop_status in Hloop as [_ ?].
  - case_bool_decide.
    + by intros [= <- <- <-] Hne.
    + intros [= <- <- <-] _. auto.
Qed.

Lemma GetClusterHelixDistance_outputs_only_on_success_witness :
  GetClusterHelixDistance Exact.z Exact.position
    (λ (_ : ()) (_ : Exact.Vector), (STATUS_CODE_FAILURE, (0, 0, 0)%Q)) 3
    {| GetNCaloHits := 1; GetOrderedCaloHitList := run [OpAddCaloHit 3 8] |} tt
    7 9 4 (5 # 1)%Q (6 # 1)%Q
  = Some (STATUS_CODE_FAILURE, (5 # 1)%Q, (6 # 1)%Q) ∧
  ∃ pseudoLayer pCaloHit,
    contains (run [OpAddCaloHit 3 8]) pseudoLayer pCaloHit ∧
    STATUS_CODE_FAILURE = STATUS_CODE_FAILURE.
Proof.
  assert (Hrun :
    GetClusterHelixDistance Exact.z Exact.position
      (λ (_ : ()) (_ : Exact.Vector), (STATUS_CODE_FAILURE, (0, 0, 0)%Q)) 3
      {| GetNCaloHits := 1; GetOrderedCaloHitList := run [OpAddCaloHit 3 8] |} tt
      7 9 4 (5 # 1)%Q (6 # 1)%Q
    = Some (STATUS_CODE_FAILURE, (5 # 1)%Q, (6 # 1)%Q)) by (vm_compute; reflexivity).
  split; [exact Hrun|].
  destruct (GetClusterHelixDistance_outputs_only_on_success _ _ _ _ _ _ _ _ _ _ _ _ _ _
              Hrun ltac:(discriminate)) as (_ & _ & [Hstatus|[Hstatus|Hhit]]);
    [discriminate|discriminate|exact Hhit].
Defined.

(** X17. With [maxOccupiedLayers] zero, [GetClusterHelixDistance] never
    returns [STATUS_CODE_SUCCESS]: the first occupied layer already exceeds
    the limit, so no hit is counted and the output parameters keep their
    values. *)
Theorem GetClusterHelixDistance_no_layer_allowed
    {float : Type} `{FloatOps float} {CartesianVector Helix : Type}
    (GetZ : CartesianVector → float) (GetPositionVector : N → CartesianVector)
    (GetDistanceToPoint : Helix → CartesianVector → StatusCode * CartesianVector)
    (fuel : nat) (pCluster : Cluster) (pHelix : Helix) (startLayer endLayer : N)
    (closestDistanceToHit meanDistanceToHits : float) result :
  GetClusterHelixDistance GetZ GetPositionVector GetDistanceToPoint fuel pCluster pHelix
    startLayer endLayer 0 closestDistanceToHit meanDistanceToHits = Some result →
  result = (if bool_decide (endLayer < startLayer) then STATUS_CODE_INVALID_PARAMETER
            else STATUS_CODE_NOT_FOUND,
            closestDistanceToHit, meanDistanceToHits).
Proof.
  unfold GetClusterHelixDistance. case_bool_decide; [by intros [= <-]|].
  destruct (helix_layers_loop _ _ _ _ _ _ _ _ _ _) as [loopResult|] eqn:Hloop; [|done].
  apply helix_layers_loop_no_layer_allowed in Hloop as (st & -> & Hhits); [|done|done].
  rewrite Hhits. by intros [= <-].
Qed.

Lemma GetClusterHelixDistance_no_layer_allowed_witness :
  GetClusterHelixDistance Exact.z Exact.position Exact.distance_to_point 3
    {| GetNCaloHits := 1; GetOrderedCaloHitList := run [OpAddCaloHit 3 8] |} tt
    7 9 0 (5 # 1)%Q (6 # 1)%Q
  = Some (STATUS_CODE_NOT_FOUND, (5 # 1)%Q, (6 # 1)%Q).
Proof.
  assert (Hrun :
    GetClusterHelixDistance Exact.z Exact.position Exact.distance_to_point 3
      {| GetNCaloHits := 1; GetOrderedCaloHitList := run [OpAddCaloHit 3 8] |} tt
      7 9 0 (5 # 1)%Q (6 # 1)%Q
    = Some (STATUS_CODE_NOT_FOUND, (5 # 1)%Q, (6 # 1)%Q)) by (vm_compute; reflexivity).
  rewrite (GetClusterHelixDistance_no_layer_allowed _ _ _ _ _ _ _ _ _ _ _ Hrun).
  reflexivity.
Defined.

(** X18. For a range of layers that is not inverted, ends below the
    greatest [unsigned int] and holds no occupied layer of the cluster,
    [GetClusterHelixDistance] returns [STATUS_CODE_NOT_FOUND] and leaves its
    output parameters alone; one unit of fuel per layer of the range is
    enough. *)
Theorem GetClusterHelixDistance_unoccupied_range
    {float : Type} `{FloatOps float} {CartesianVector Helix : Type}
    (GetZ : CartesianVector → float) (GetPositionVector : N → CartesianVector)
    (GetDistanceToPoint : Helix → CartesianVector → StatusCode * CartesianVector)
    (fuel : nat) (pCluster : Cluster) (pHelix : Helix)
    (startLayer endLayer maxOccupiedLayers : N)
    (closestDistanceToHit meanDistanceToHits : float) :
  startLayer ≤ endLayer → endLayer < 2 ^ 32 - 1 →
  (∀ layer, startLayer ≤ layer ≤ endLayer →
     GetOrderedCaloHitList pCluster !! layer = None) →
  (N.to_nat (endLayer + 1 - startLayer) ≤ fuel)%nat →
  GetClusterHelixDistance GetZ GetPositionVector GetDistanceToPoint fuel pCluster pHelix
    startLayer endLayer maxOccupiedLayers closestDistanceToHit meanDistanceToHits
  = Some (STATUS_CODE_NOT_FOUND, closestDistanceToHit, meanDistanceToHits).
Proof.
  intros Hrange Hend Hnone Hfuel. unfold GetClusterHelixDistance.
  rewrite bool_decide_eq_false_2 by lia.
  by rewrite helix_layers_loop_unoccupied.
Qed.

Lemma GetClusterHelixDistance_unoccupied_range_witness :
  GetClusterHelixDistance Exact.z Exact.position Exact.distance_to_point 3
    {| GetNCaloHits := 1; GetOrderedCaloHitList := run [OpAddCaloHit 3 8] |} tt
    5 7 4 (5 # 1)%Q (6 # 1)%Q
  = Some (STATUS_CODE_NOT_FOUND, (5 # 1)%Q, (6 # 1)%Q).
Proof.
  apply (GetClusterHelixDistance_unoccupied_range Exact.z Exact.position
           Exact.distance_to_point); [lia|by vm_compute| |by vm_compute].
  intros layer Hlayer. simpl.
  assert (Hcases : layer = 5 ∨ layer = 6 ∨ layer = 7) by lia.
  destruct Hcases as [->|[->| ->]]; vm_compute; reflexivity.
Defined.

(** X19. With [endLayer] the greatest [unsigned int], the loop condition
    [iLayer <= endLayer] holds for every [iLayer], and [++iLayer] wraps
    around: on a cluster whose ordered calo hit list is empty the loop of
    [GetClusterHelixDistance] never ends, whatever the fuel. *)
Theorem GetClusterHelixDistance_never_ends
    {float : Type} `{FloatOps float} {CartesianVector Helix : Type}
    (GetZ : CartesianVector → float) (GetPositionVector : N → CartesianVector)
    (GetDistanceToPoint : Helix → CartesianVector → StatusCode * CartesianVector)
    (fuel : nat) (pCluster : Cluster) (pHelix : Helix)
    (startLayer maxOccupiedLayers : N)
    (closestDistanceToHit meanDistanceToHits : float) :
  startLayer < 2 ^ 32 →
  GetOrderedCaloHitList pCluster = ∅ →
  GetClusterHelixDistance GetZ GetPositionVector GetDistanceToPoint fuel pCluster pHelix
    startLayer (2 ^ 32 - 1) maxOccupiedLayers closestDistanceToHit meanDistanceToHits
  = None.
Proof.
  intros Hstart Hempty. unfold GetClusterHelixDistance.
  rewrite bool_decide_eq_false_2 by lia.
  rewrite Hempty. by rewrite helix_layers_loop_never_ends.
Qed.

Lemma GetClusterHelixDistance_never_ends_witness :
  GetClusterHelixDistance Exact.z Exact.position Exact.distance_to_point 1000
    {| GetNCaloHits := 0; GetOrderedCaloHitList := ∅ |} tt
    5 (2 ^ 32 - 1) 4 (5 # 1)%Q (6 # 1)%Q = None.
Proof.
  apply (GetClusterHelixDistance_never_ends Exact.z Exact.position
           Exact.distance_to_point); [by vm_compute|reflexivity].
Defined.

(** ** The counters of the fractions *)

Lemma hits_in_order_nil (this : gmap N (gset N)) :
  (∀ layer hit, ¬ contains this layer hit) → hits_in_order this = [].
Proof.
  intros Hnone. apply hits_in_order_unique; [constructor|].
  intros layer hit. rewrite elem_of_nil. naive_solver.
Qed.

Section Counters.
Context {float : Type} `{FloatOps float} {CartesianVector : Type}.
Context (vector_minus : CartesianVector → CartesianVector → CartesianVector).
Context (GetMagnitudeSquared : CartesianVector → float).
Context (GetDotProduct : CartesianVector → CartesianVector → float).
Context (GetUnitVector : CartesianVector → Outcome CartesianVector).
Context (GetPositionVector : N → CartesianVector).

Lemma count_if_le {A : Type} (test : A → bool) (l : list A) (n : N) :
  foldl (λ count x, if test x then uint_incr count else count) n l
    ≤ n + N.of_nat (length l).
Proof.
  revert n. induction l as [|x l IH]; intros n; simpl; [lia|].
  etrans; [apply IH|]. destruct (test x); [|lia].
  pose proof (uint_incr_le n). lia.
Qed.

Lemma count_if_never {A : Type} (test : A → bool) (l : list A) (n : N) :
  (∀ x, x ∈ l → test x = false) →
  foldl (λ count x, if test x then uint_incr count else count) n l = n.
Proof.
  revert n. induction l as [|x l IH]; intros n Hnever; simpl; [done|].
  rewrite (Hnever x) by (by left). apply IH. intros y Hy. apply Hnever. by right.
Qed.

Lemma count_hits_in_cone_le (visits : list (N * N))
    (coneApex coneDirection : CartesianVector) (coneCosineHalfAngle : float)
    (nHitsInCone counted : N) :
  count_hits_in_cone vector_minus GetDotProduct GetUnitVector GetPositionVector
    visits coneApex coneDirection coneCosineHalfAngle nHitsInCone = Returned counted →
  counted ≤ nHitsInCone + N.of_nat (length visits).
Proof.
  revert nHitsInCone. induction visits as [|v visits IH]; intros n; simpl.
  { intros [= <-]. lia. }
  destruct (GetUnitVector _) as [unitVector|]; [|done].
  intros Hcount%IH. destruct (f_lt _ _); [|lia].
  pose proof (uint_incr_le n). lia.
Qed.
End Counters.

(** X20. The numerator of the quotient that [GetFractionOfCloseHits] or
    [GetFractionOfHitsInCone] returns never exceeds the number of hits in
    the ordered calo hit list of the cluster, so the quotient is of two
    counters with the first at most the second whenever the cluster reports
    as many hits as its list holds; and for [GetFractionOfCloseHits] the
    numerator is zero when the other cluster holds no hit. *)
Theorem fraction_numerators_bounded
    {float : Type} `{FloatOps float} {CartesianVector : Type}
    (vector_minus : CartesianVector → CartesianVector → CartesianVector)
    (GetMagnitudeSquared : CartesianVector → float)
    (GetDotProduct : CartesianVector → CartesianVector → float)
    (GetUnitVector : CartesianVector → Outcome CartesianVector)
    (GetPositionVector : N → CartesianVector)
    (pClusterI pClusterJ : Cluster) (distanceThreshold : float)
    (coneApex coneDirection : CartesianVector) (coneCosineHalfAngle : float) :
  (∀ numerator denominator,
     GetFractionOfCloseHits_return vector_minus GetMagnitudeSquared GetPositionVector
       pClusterI pClusterJ distanceThreshold = Quotient numerator denominator →
     numerator ≤ N.of_nat (length (hits_in_order (GetOrderedCaloHitList pClusterI))) ∧
     ((∀ layer hit, ¬ contains (GetOrderedCaloHitList pClusterJ) layer hit) →
        numerator = 0)) ∧
  (∀ numerator denominator,
     GetFractionOfHitsInCone_return vector_minus GetDotProduct GetUnitVector
       GetPositionVector pClusterI coneApex coneDirection coneCosineHalfAngle
       = Returned (Quotient numerator denominator) →
     numerator ≤ N.of_nat (length (hits_in_order (GetOrderedCaloHitList pClusterI)))).
Proof.
  split.
  - intros numerator denominator. unfold GetFractionOfCloseHits_return.
    case_bool_decide; [done|]. intros [= <- _]. split.
    + apply (count_if_le
               (λ visitedI : N * N,
                  has_close_hit vector_minus GetMagnitudeSquared GetPositionVector
                    (GetPositionVector visitedI.2) (GetOrderedCaloHitList pClusterJ)
                    (f_mul distanceThreshold distanceThreshold))).
    + intros Hnone.
      apply (count_if_never
               (λ visitedI : N * N,
                  has_close_hit vector_minus GetMagnitudeSquared GetPositionVector
                    (GetPositionVector visitedI.2) (GetOrderedCaloHitList pClusterJ)
                    (f_mul distanceThreshold distanceThreshold))).
      intros visitedI _.
      unfold has_close_hit. by rewrite (hits_in_order_nil _ Hnone).
  - intros numerator denominator. unfold GetFractionOfHitsInCone_return.
    case_bool_decide; [done|].
    destruct (count_hits_in_cone _ _ _ _ _ _ _ _ _) as [counted|] eqn:Hcount; [|done].
    intros [= <- _]. apply count_hits_in_cone_le in Hcount. lia.
Qed.

(** ** GetClusterContactDetails *)

Section ContactDetails.
Context {float : Type} `{FloatOps float} {CartesianVector : Type}.
Context (vector_minus : CartesianVector → CartesianVector → CartesianVector).
Context (GetMagnitudeSquared : CartesianVector → float).
Context (GetPositionVector : N → CartesianVector).
Context (GetCellLengthScale : N → float) (f_1_5 : float).

Local Abbreviation contact_loop :=
  (contact_layers_loop vector_minus GetMagnitudeSquared GetPositionVector
     GetCellLengthScale f_1_5).

Lemma layer_range_empty (startLayer endLayer : N) :
  endLayer < startLayer → layer_range startLayer endLayer = [].
Proof.
  intros Hlt. unfold layer_range.
  by replace (N.to_nat (endLayer + 1 - startLayer)) with 0%nat by lia.
Qed.

Lemma layer_range_cons (startLayer endLayer : N) :
  startLayer ≤ endLayer →
  layer_range startLayer endLayer = startLayer :: layer_range (startLayer + 1) endLayer.
Proof.
  intros Hle. unfold layer_range.
  replace (N.to_nat (endLayer + 1 - startLayer))
    with (S (N.to_nat (endLayer + 1 - (startLayer + 1)))) by lia.
  done.
Qed.

Lemma elem_of_layers_from (iLayer : N) (count : nat) (layer : N) :
  layer ∈ layers_from iLayer count ↔ iLayer ≤ layer < iLayer + N.of_nat count.
Proof.
  revert iLayer. induction count as [|count IH]; intros iLayer; simpl.
  { rewrite elem_of_nil. lia. }
  rewrite elem_of_cons, IH. lia.
Qed.

Lemma elem_of_layer_range (startLayer endLayer layer : N) :
  layer ∈ layer_range startLayer endLayer ↔ startLayer ≤ layer ≤ endLayer.
Proof. unfold layer_range. rewrite elem_of_layers_from. lia. Qed.

Lemma contact_loop_inverted (fuel : nat) (listI listJ : gmap N (gset N))
    (distanceThreshold : float) (iLayer endLayer : N) (st : ContactState) :
  endLayer < iLayer →
  contact_loop fuel listI listJ distanceThreshold iLayer endLayer st = Some st.
Proof. intros Hlt. destruct fuel; simpl; by rewrite bool_decide_eq_false_2 by lia. Qed.

Lemma contact_loop_counts (fuel : nat) (listI listJ : gmap N (gset N))
    (distanceThreshold : float) (iLayer endLayer : N) (st : ContactState) :
  endLayer < 2 ^ 32 - 1 →
  (N.to_nat (endLayer + 1 - iLayer) ≤ fuel)%nat →
  nLayersCompared st + (endLayer + 1 - iLayer) < 2 ^ 32 →
  nLayersInContact st ≤ nLayersCompared st →
  ∃ st',
    contact_loop fuel listI listJ distanceThreshold iLayer endLayer st = Some st' ∧
    nLayersCompared st' =
      nLayersCompared st + N.of_nat (length (common_layers listI listJ iLayer endLayer)) ∧
    nLayersInContact st' ≤ nLayersCompared st'.
Proof.
  intros Hend. revert iLayer st.
  induction fuel as [|fuel IH]; intros iLayer st Hfuel Hroom Hle; simpl.
  { rewrite bool_decide_eq_false_2 by lia. exists st.
    unfold common_layers. rewrite layer_range_empty by lia. simpl.
    split_and!; [done|lia|done]. }
  case_bool_decide as Hrange.
  2:{ exists st. unfold common_layers. rewrite layer_range_empty by lia. simpl.
      split_and!; [done|lia|done]. }
  unfold common_layers. rewrite (layer_range_cons iLayer) by done.
  rewrite (uint_incr_below iLayer) by lia.
  assert (H232 : (2 ^ 32 : N) = 4294967296) by done.
  destruct (listI !! iLayer) as [bucketI|] eqn:HI, (listJ !! iLayer) as [bucketJ|] eqn:HJ.
  - rewrite filter_cons_True by (rewrite HI, HJ; eauto).
    edestruct (IH (iLayer + 1)) as (st' & Hloop & Hcompared & Hcontact);
      [| | |exists st'; split; [exact Hloop|]].
    + lia.
    + simpl. rewrite (uint_incr_below (nLayersCompared st)) by lia. lia.
    + simpl. rewrite (uint_incr_below (nLayersCompared st)) by lia.
      destruct (layer_in_contact _ _ _ _ _ _ _ _); [|lia].
      pose proof (uint_incr_le (nLayersInContact st)). lia.
    + simpl in Hcompared.
      rewrite (uint_incr_below (nLayersCompared st)) in Hcompared by lia.
      unfold common_layers in Hcompared. simpl. split; [lia|done].
  - rewrite filter_cons_False by (rewrite HJ; intros [_ [? [=]]]).
    apply IH; [lia|lia|done].
  - rewrite filter_cons_False by (rewrite HI; intros [[? [=]] _]).
    apply IH; [lia|lia|done].
  - rewrite filter_cons_False by (rewrite HI; intros [[? [=]] _]).
    apply IH; [lia|lia|done].
Qed.
End ContactDetails.

(** X21. When the last layer to compare is below the greatest
    [unsigned int], [GetClusterContactDetails] returns, with one unit of
    fuel per layer between the greater inner and the lesser outer layer of
    the two clusters. It returns [STATUS_CODE_NOT_FOUND], its output
    parameters untouched, exactly when no layer of that range is occupied
    in both clusters; otherwise [STATUS_CODE_SUCCESS] with a count of
    contact layers that is at most the number of layers occupied in both,
    and with the quotient of the two as the contact fraction, its divisor
    not zero. *)
Theorem GetClusterContactDetails_counts_common_layers
    {float : Type} `{FloatOps float} {CartesianVector : Type}
    (vector_minus : CartesianVector → CartesianVector → CartesianVector)
    (GetMagnitudeSquared : CartesianVector → float)
    (GetPositionVector : N → CartesianVector)
    (GetCellLengthScale : N → float) (f_1_5 : float)
    (GetInnerPseudoLayer GetOuterPseudoLayer : Cluster → N)
    (fuel : nat) (pClusterI pClusterJ : Cluster) (distanceThreshold : float)
    (nContactLayers : N) (contactFraction : float) :
  let startLayer := N.max (GetInnerPseudoLayer pClusterI) (GetInnerPseudoLayer pClusterJ) in
  let endLayer := N.min (GetOuterPseudoLayer pClusterI) (GetOuterPseudoLayer pClusterJ) in
  let compared :=
    N.of_nat (length (common_layers (GetOrderedCaloHitList pClusterI)
                        (GetOrderedCaloHitList pClusterJ) startLayer endLayer)) in
  endLayer < 2 ^ 32 - 1 →
  (N.to_nat (endLayer + 1 - startLayer) ≤ fuel)%nat →
  ∃ inContact,
    inContact ≤ compared ∧
    GetClusterContactDetails vector_minus GetMagnitudeSquared GetPositionVector
      GetCellLengthScale f_1_5 GetInnerPseudoLayer GetOuterPseudoLayer
      fuel pClusterI pClusterJ distanceThreshold nContactLayers contactFraction
    = if bool_decide (0 < compared)
      then Some (STATUS_CODE_SUCCESS, inContact,
                 f_div (f_of_uint inContact) (f_of_uint compared))
      else Some (STATUS_CODE_NOT_FOUND, nContactLayers, contactFraction).
Proof.
  intros startLayer endLayer compared Hend Hfuel.
  destruct (contact_loop_counts vector_minus GetMagnitudeSquared GetPositionVector
              GetCellLengthScale f_1_5 fuel
              (GetOrderedCaloHitList pClusterI) (GetOrderedCaloHitList pClusterJ)
              distanceThreshold startLayer endLayer
              {| nLayersCompared := 0; nLayersInContact := 0 |})
    as (st & Hloop & Hcompared & Hcontact); [done|done| |done|].
  { simpl. assert (H232 : (2 ^ 32 : N) = 4294967296) by done. lia. }
  simpl in Hcompared. exists (nLayersInContact st).
  unfold GetClusterContactDetails. fold startLayer endLayer. rewrite Hloop.
  rewrite Hcompared. fold compared. split; [|done].
  unfold compared. lia.
Qed.

Lemma GetClusterContactDetails_counts_common_layers_witness :
  ∃ inContact,
    inContact ≤ 1 ∧
    GetClusterContactDetails Exact.minus Exact.magnitude_squared Exact.position
      (λ _, (1 # 1)%Q) (3 # 2)%Q (λ _, 7) (λ _, 9) 3
      {| GetNCaloHits := 2;
         GetOrderedCaloHitList := run [OpAddCaloHit 3 8; OpAddCaloHit 4 9] |}
      {| GetNCaloHits := 1; GetOrderedCaloHitList := run [OpAddCaloHit 5 8] |}
      (2 # 1)%Q 0 0%Q
    = Some (STATUS_CODE_SUCCESS, inContact,
            f_div (f_of_uint inContact) (f_of_uint 1)).
Proof.
  destruct (GetClusterContactDetails_counts_common_layers
    Exact.minus Exact.magnitude_squared Exact.position
    (λ _, (1 # 1)%Q) (3 # 2)%Q (λ _, 7) (λ _, 9) 3
    {| GetNCaloHits := 2;
       GetOrderedCaloHitList := run [OpAddCaloHit 3 8; OpAddCaloHit 4 9] |}
    {| GetNCaloHits := 1; GetOrderedCaloHitList := run [OpAddCaloHit 5 8] |}
    (2 # 1)%Q 0 0%Q) as (inContact & Hle & Hrun).
  - by vm_compute.
  - by vm_compute.
  - exists inContact. split; [exact Hle|exact Hrun].
Defined.

(** X22. When the greater of the two inner layers is above the lesser of
    the two outer layers, [GetClusterContactDetails] compares no layer: it
    returns [STATUS_CODE_NOT_FOUND], not an invalid parameter status, and
    its output parameters keep their values, whatever the fuel. *)
Theorem GetClusterContactDetails_no_shared_range
    {float : Type} `{FloatOps float} {CartesianVector : Type}
    (vector_minus : CartesianVector → CartesianVector → CartesianVector)
    (GetMagnitudeSquared : CartesianVector → float)
    (GetPositionVector : N → CartesianVector)
    (GetCellLengthScale : N → float) (f_1_5 : float)
    (GetInnerPseudoLayer GetOuterPseudoLayer : Cluster → N)
    (fuel : nat) (pClusterI pClusterJ : Cluster) (distanceThreshold : float)
    (nContactLayers : N) (contactFraction : float) :
  N.min (GetOuterPseudoLayer pClusterI) (GetOuterPseudoLayer pClusterJ)
    < N.max (GetInnerPseudoLayer pClusterI) (GetInnerPseudoLayer pClusterJ) →
  GetClusterContactDetails vector_minus GetMagnitudeSquared GetPositionVector
    GetCellLengthScale f_1_5 GetInnerPseudoLayer GetOuterPseudoLayer
    fuel pClusterI pClusterJ distanceThreshold nContactLayers contactFraction
  = Some (STATUS_CODE_NOT_FOUND, nContactLayers, contactFraction).
Proof.
  intros Hinverted. unfold GetClusterContactDetails.
  by rewrite contact_loop_inverted.
Qed.

Lemma GetClusterContactDetails_no_shared_range_witness :
  GetClusterContactDetails Exact.minus Exact.magnitude_squared Exact.position
    (λ _, (1 # 1)%Q) (3 # 2)%Q (λ _, 9) (λ _, 7) 0
    {| GetNCaloHits := 1; GetOrderedCaloHitList := run [OpAddCaloHit 3 8] |}
    {| GetNCaloHits := 1; GetOrderedCaloHitList := run [OpAddCaloHit 5 8] |}
    (2 # 1)%Q 4 (1 # 3)%Q
  = Some (STATUS_CODE_NOT_FOUND, 4, (1 # 3)%Q).
Proof.
  apply (GetClusterContactDetails_no_shared_range Exact.minus Exact.magnitude_squared
           Exact.position (λ _, (1 # 1)%Q) (3 # 2)%Q (λ _, 9) (λ _, 7)).
  by vm_compute.
Defined.

(** ** GetNLayersCrossed *)

Section LayersCrossed.
Context {float : Type} `{FloatOps float} {CartesianVector Helix double : Type}.
Context (f_sub : float → float → float) (f_fabs : float → float) (f_0_001 : float).
Context (d_of_float : float → double) (d_0_5 : double).
Context (d_add d_mul : double → double → double) (d_fabs : double → double).
Context (d_lt : double → double → bool).
Context (GetReferencePoint : Helix → CartesianVector).
Context (GetPointInZ : Helix → float → CartesianVector → StatusCode * CartesianVector).
Context (IsOutsideHCal : CartesianVector → bool).
Context (GetPseudoLayer : CartesianVector → StatusCode * N).
Context (IsInECalGapRegion : CartesianVector → bool).

(** While every point inside the HCal lies in the current layer, the
    count of the loop stays as it is. *)
Lemma layers_crossed_loop_one_layer (fuel : nat) (pHelix : Helix)
    (referencePoint : CartesianVector) (zEnd deltaZ : float)
    (st : LayersCrossedState) (crossed : N) :
  (∀ point, IsOutsideHCal point = false →
     (GetPseudoLayer point).1 = STATUS_CODE_SUCCESS →
     (GetPseudoLayer point).2 = currentLayer st) →
  layers_crossed_loop f_fabs d_of_float d_0_5 d_add d_mul d_fabs d_lt GetPointInZ
    IsOutsideHCal GetPseudoLayer IsInECalGapRegion fuel pHelix referencePoint
    zEnd deltaZ st = Some (Returned crossed) →
  crossed = layerCount st.
Proof.
  revert st. induction fuel as [|fuel IH]; intros st Hlayer; simpl.
  { destruct (d_lt _ _); [done|]. by intros [= <-]. }
  destruct (d_lt _ _); [|by intros [= <-]].
  unfold PANDORA_THROW_RESULT_IF_ne. case_bool_decide as Hpoint; [done|].
  destruct (IsOutsideHCal _) eqn:Houtside; simpl.
  { intros Hloop. by apply IH in Hloop. }
  case_bool_decide as Hstatus; simpl.
  { intros Hloop. by apply IH in Hloop. }
  rewrite bool_decide_eq_false_2.
  { intros Hloop. by apply IH in Hloop. }
  intros Hne. apply Hne. by apply Hlayer.
Qed.
End LayersCrossed.

(** X23. [GetNLayersCrossed] throws a [StatusCodeException] with
    [STATUS_CODE_INVALID_PARAMETER] when the number of sampling points is
    zero or above 1000, before it reads the helix; for a number from 1 to
    1000 it does not throw that status for the number, it goes on to the
    step in z. *)
Theorem GetNLayersCrossed_sampling_points
    {float : Type} `{FloatOps float} {CartesianVector Helix double : Type}
    (f_sub : float → float → float) (f_fabs : float → float) (f_0_001 : float)
    (d_of_float : float → double) (d_0_5 : double)
    (d_add d_mul : double → double → double) (d_fabs : double → double)
    (d_lt : double → double → bool)
    (GetReferencePoint : Helix → CartesianVector)
    (GetPointInZ : Helix → float → CartesianVector → StatusCode * CartesianVector)
    (IsOutsideHCal : CartesianVector → bool)
    (GetPseudoLayer : CartesianVector → StatusCode * N)
    (IsInECalGapRegion : CartesianVector → bool)
    (fuel : nat) (pHelix : Helix) (zStart zEnd : float) (nSamplingPoints : N) :
  (nSamplingPoints = 0 ∨ 1000 < nSamplingPoints →
     GetNLayersCrossed f_sub f_fabs f_0_001 d_of_float d_0_5 d_add d_mul d_fabs d_lt
       GetReferencePoint GetPointInZ IsOutsideHCal GetPseudoLayer IsInECalGapRegion
       fuel pHelix zStart zEnd nSamplingPoints
     = Some (Thrown STATUS_CODE_INVALID_PARAMETER)) ∧
  (1 ≤ nSamplingPoints ≤ 1000 →
     f_lt (f_fabs (f_div (f_sub zEnd zStart) (f_of_uint nSamplingPoints))) f_0_001 = true →
     GetNLayersCrossed f_sub f_fabs f_0_001 d_of_float d_0_5 d_add d_mul d_fabs d_lt
       GetReferencePoint GetPointInZ IsOutsideHCal GetPseudoLayer IsInECalGapRegion
       fuel pHelix zStart zEnd nSamplingPoints
     = Some (Returned 0)).
Proof.
  unfold GetNLayersCrossed. split.
  - intros [-> | Hmany]; [done|].
    rewrite (bool_decide_eq_true_2 (1000 < nSamplingPoints)) by done.
    by rewrite orb_true_r.
  - intros Hrange Hsmall.
    rewrite bool_decide_eq_false_2 by lia. rewrite bool_decide_eq_false_2 by lia.
    simpl. by rewrite Hsmall.
Qed.

(** X24. When every point of the helix inside the HCal lies in one and the
    same pseudo layer, [GetNLayersCrossed] counts no layer: whatever it
    returns is zero, or the greatest [unsigned int] that it returns when
    the start point has no layer. *)
Theorem GetNLayersCrossed_one_layer
    {float : Type} `{FloatOps float} {CartesianVector Helix double : Type}
    (f_sub : float → float → float) (f_fabs : float → float) (f_0_001 : float)
    (d_of_float : float → double) (d_0_5 : double)
    (d_add d_mul : double → double → double) (d_fabs : double → double)
    (d_lt : double → double → bool)
    (GetReferencePoint : Helix → CartesianVector)
    (GetPointInZ : Helix → float → CartesianVector → StatusCode * CartesianVector)
    (IsOutsideHCal : CartesianVector → bool)
    (GetPseudoLayer : CartesianVector → StatusCode * N)
    (IsInECalGapRegion : CartesianVector → bool)
    (fuel : nat) (pHelix : Helix) (zStart zEnd : float) (nSamplingPoints : N)
    (pseudoLayer crossed : N) :
  (∀ point, IsOutsideHCal point = false →
     (GetPseudoLayer point).1 = STATUS_CODE_SUCCESS →
     (GetPseudoLayer point).2 = pseudoLayer) →
  GetNLayersCrossed f_sub f_fabs f_0_001 d_of_float d_0_5 d_add d_mul d_fabs d_lt
    GetReferencePoint GetPointInZ IsOutsideHCal GetPseudoLayer IsInECalGapRegion
    fuel pHelix zStart zEnd nSamplingPoints = Some (Returned crossed) →
  crossed = 0 ∨
  (crossed = MAX_LAYER ∧
   (IsOutsideHCal (GetPointInZ pHelix zStart (GetReferencePoint pHelix)).2 = true ∨
    (GetPseudoLayer (GetPointInZ pHelix zStart (GetReferencePoint pHelix)).2).1
      ≠ STATUS_CODE_SUCCESS)).
Proof.
  intros Hlayer. unfold GetNLayersCrossed.
  destruct (_ || _); [done|].
  destruct (f_lt _ _); [intros [= <-]; by left|].
  unfold PANDORA_THROW_RESULT_IF_ne. case_bool_decide; [done|].
  destruct (IsOutsideHCal _) eqn:Houtside; simpl.
  { intros [= <-]. right. auto. }
  case_bool_decide as Hstatus; simpl.
  { intros [= <-]. right. split; [done|]. right. congruence. }
  intros Hloop. left.
  apply layers_crossed_loop_one_layer in Hloop; [done|].
  intros point Hinside Hok. simpl. rewrite (Hlayer point Hinside Hok).
  symmetry. by apply Hlayer.
Qed.

Lemma GetNLayersCrossed_one_layer_witness :
  GetNLayersCrossed Qminus ExactMore.abs (1 # 1000)%Q (λ q : Q, q) (1 # 2)%Q Qplus Qmult ExactMore.abs
    (λ a b, negb (Qle_bool b a)) (λ _ : (), (0, 0, 0)%Q) ExactMore.point_in_z
    (λ _, false) ExactMore.one_layer (λ _, false) 20 tt 0%Q (10 # 1)%Q 10
  = Some (Returned 0) ∧
  (0 = 0 ∨
   (0 = MAX_LAYER ∧
    (false = true ∨
     (ExactMore.one_layer (ExactMore.point_in_z tt 0%Q (0, 0, 0)%Q).2).1
       ≠ STATUS_CODE_SUCCESS))).
Proof.
  assert (Hrun :
    GetNLayersCrossed Qminus ExactMore.abs (1 # 1000)%Q (λ q : Q, q) (1 # 2)%Q Qplus Qmult ExactMore.abs
      (λ a b, negb (Qle_bool b a)) (λ _ : (), (0, 0, 0)%Q) ExactMore.point_in_z
      (λ _, false) ExactMore.one_layer (λ _, false) 20 tt 0%Q (10 # 1)%Q 10
    = Some (Returned 0)) by (vm_compute; reflexivity).
  split; [exact Hrun|].
  apply (GetNLayersCrossed_one_layer Qminus ExactMore.abs (1 # 1000)%Q (λ q : Q, q) (1 # 2)%Q
           Qplus Qmult ExactMore.abs (λ a b, negb (Qle_bool b a)) (λ _ : (), (0, 0, 0)%Q)
           ExactMore.point_in_z (λ _, false) ExactMore.one_layer (λ _, false)
           20 tt 0%Q (10 # 1)%Q 10 3 0); [|exact Hrun].
  intros point _ _. reflexivity.
Defined.

(** ** HitDistanceComparison *)

Section HitDistance.
Context {float : Type} `{FloatOps float} {CartesianVector : Type}.
Context (vector_minus : CartesianVector → CartesianVector → CartesianVector).
Context (GetMagnitudeSquared : CartesianVector → float).
Context (GetPositionVector : N → CartesianVector).

(** One step of the loops over the hits of the parent cluster. *)
Local Abbreviation compare_step positionVectorI squared1 squared2 :=
  (λ '(isCloseHit1, isCloseHit2, minDistanceSquared') (visitedJ : N * N),
     let distanceSquared :=
       GetMagnitudeSquared (vector_minus positionVectorI (GetPositionVector visitedJ.2)) in
     (if negb isCloseHit1 && f_lt distanceSquared squared1 then true else isCloseHit1,
      if negb isCloseHit2 && f_lt distanceSquared squared2 then true else isCloseHit2,
      if f_lt distanceSquared minDistanceSquared'
      then distanceSquared else minDistanceSquared')).

Lemma compare_with_parent_hits_flags (positionVectorI : CartesianVector)
    (visitsJ : list (N * N)) (squared1 squared2 : float)
    (start : bool * bool * float) :
  (foldl (compare_step positionVectorI squared1 squared2) start visitsJ).1.1 =
    start.1.1 || existsb
      (λ visitedJ : N * N,
         f_lt (GetMagnitudeSquared (vector_minus positionVectorI (GetPositionVector visitedJ.2)))
              squared1) visitsJ ∧
  (foldl (compare_step positionVectorI squared1 squared2) start visitsJ).1.2 =
    start.1.2 || existsb
      (λ visitedJ : N * N,
         f_lt (GetMagnitudeSquared (vector_minus positionVectorI (GetPositionVector visitedJ.2)))
              squared2) visitsJ.
Proof.
  revert start. induction visitsJ as [|v visitsJ IH]; intros [[flag1 flag2] least].
  { simpl. by rewrite !orb_false_r. }
  destruct (IH (compare_step positionVectorI squared1 squared2
                  (flag1, flag2, least) v)) as [IH1 IH2].
  split.
  - etrans; [exact IH1|]. simpl. by destruct flag1, (f_lt _ squared1).
  - etrans; [exact IH2|]. simpl. by destruct flag2, (f_lt _ squared2).
Qed.

Lemma compare_with_parent_hits_close (positionVectorI : CartesianVector)
    (listJ : gmap N (gset N)) (squared1 squared2 least : float) :
  (compare_with_parent_hits vector_minus GetMagnitudeSquared GetPositionVector
     positionVectorI (hits_in_order listJ) squared1 squared2 least).1.1
    = has_close_hit vector_minus GetMagnitudeSquared GetPositionVector
        positionVectorI listJ squared1 ∧
  (compare_with_parent_hits vector_minus GetMagnitudeSquared GetPositionVector
     positionVectorI (hits_in_order listJ) squared1 squared2 least).1.2
    = has_close_hit vector_minus GetMagnitudeSquared GetPositionVector
        positionVectorI listJ squared2.
Proof.
  apply (compare_with_parent_hits_flags positionVectorI (hits_in_order listJ)
           squared1 squared2 (false, false, least)).
Qed.
End HitDistance.

Section HitDistanceCounts.
Context {float : Type} `{FloatOps float} {CartesianVector : Type}.
Context (vector_minus : CartesianVector → CartesianVector → CartesianVector).
Context (GetMagnitudeSquared : CartesianVector → float).
Context (GetPositionVector : N → CartesianVector).

(** The body of the loop over the hits of the daughter cluster. *)
Local Abbreviation daughter_step listJ squared1 squared2 :=
  (λ (st : HitDistanceState) (visitedI : N * N),
     let '(isCloseHit1, isCloseHit2, minDistanceSquared') :=
       compare_with_parent_hits vector_minus GetMagnitudeSquared GetPositionVector
         (GetPositionVector visitedI.2) (hits_in_order listJ) squared1 squared2
         (minDistanceSquared st) in
     {| nCloseHits1 := if isCloseHit1 then uint_incr (nCloseHits1 st) else nCloseHits1 st;
        nCloseHits2 := if isCloseHit2 then uint_incr (nCloseHits2 st) else nCloseHits2 st;
        minDistanceSquared := minDistanceSquared' |}).

Lemma daughter_loop_counts (visitsI : list (N * N)) (listJ : gmap N (gset N))
    (squared1 squared2 : float) (st : HitDistanceState) :
  nCloseHits1 (foldl (daughter_step listJ squared1 squared2) st visitsI) =
    foldl (λ count (visitedI : N * N),
             if has_close_hit vector_minus GetMagnitudeSquared GetPositionVector
                  (GetPositionVector visitedI.2) listJ squared1
             then uint_incr count else count) (nCloseHits1 st) visitsI ∧
  nCloseHits2 (foldl (daughter_step listJ squared1 squared2) st visitsI) =
    foldl (λ count (visitedI : N * N),
             if has_close_hit vector_minus GetMagnitudeSquared GetPositionVector
                  (GetPositionVector visitedI.2) listJ squared2
             then uint_incr count else count) (nCloseHits2 st) visitsI.
Proof.
  revert st. induction visitsI as [|v visitsI IH]; intros st; [done|].
  destruct (IH (daughter_step listJ squared1 squared2 st v)) as [IH1 IH2].
  destruct (compare_with_parent_hits_close vector_minus GetMagnitudeSquared
              GetPositionVector (GetPositionVector v.2) listJ squared1 squared2
              (minDistanceSquared st)) as [Hclose1 Hclose2].
  split.
  - etrans; [exact IH1|]. simpl.
    destruct (compare_with_parent_hits _ _ _ _ _ _ _ _) as [[c1 c2] least].
    simpl in *. by rewrite Hclose1.
  - etrans; [exact IH2|]. simpl.
    destruct (compare_with_parent_hits _ _ _ _ _ _ _ _) as [[c1 c2] least].
    simpl in *. by rewrite Hclose2.
Qed.
End HitDistanceCounts.

(** X25. [HitDistanceComparison] leaves the contact as it is when the
    cosine of the opening angle is below the cut, and otherwise throws
    [STATUS_CODE_INVALID_PARAMETER] when the daughter cluster reports no
    hit, where [GetFractionOfCloseHits] returns zero. In the remaining
    case its single loop gives the two close hit fractions the values that
    [GetFractionOfCloseHits] returns for the two close hit distances, and
    it changes no member but these two and the distance to the closest
    hit. *)
Theorem HitDistanceComparison_agrees_with_GetFractionOfCloseHits
    {float : Type} `{FloatOps float} {CartesianVector : Type}
    (vector_minus : CartesianVector → CartesianVector → CartesianVector)
    (GetMagnitudeSquared : CartesianVector → float)
    (GetPositionVector : N → CartesianVector)
    (f_sqrt : float → float)
    (closeHitDistance1 closeHitDistance2 minCosOpeningAngle : float)
    (GetInitialDirection : Cluster → CartesianVector)
    (GetCosOpeningAngle : CartesianVector → CartesianVector → float)
    (this : ClusterContact float) (pDaughterCluster pParentCluster : Cluster) :
  let compared :=
    HitDistanceComparison vector_minus GetMagnitudeSquared GetPositionVector f_sqrt
      closeHitDistance1 closeHitDistance2 minCosOpeningAngle GetInitialDirection
      GetCosOpeningAngle this pDaughterCluster pParentCluster in
  let cosOpeningAngle :=
    GetCosOpeningAngle (GetInitialDirection pDaughterCluster)
      (GetInitialDirection pParentCluster) in
  (f_lt cosOpeningAngle minCosOpeningAngle = true → compared = Returned this) ∧
  (f_lt cosOpeningAngle minCosOpeningAngle = false →
     GetNCaloHits pDaughterCluster = 0 →
     compared = Thrown STATUS_CODE_INVALID_PARAMETER) ∧
  (f_lt cosOpeningAngle minCosOpeningAngle = false →
     GetNCaloHits pDaughterCluster ≠ 0 →
     ∃ this',
       compared = Returned this' ∧
       m_closeHitFraction1 this' =
         GetFractionOfCloseHits vector_minus GetMagnitudeSquared GetPositionVector
           pDaughterCluster pParentCluster closeHitDistance1 ∧
       m_closeHitFraction2 this' =
         GetFractionOfCloseHits vector_minus GetMagnitudeSquared GetPositionVector
           pDaughterCluster pParentCluster closeHitDistance2 ∧
       m_pDaughterCluster this' = m_pDaughterCluster this ∧
       m_pParentCluster this' = m_pParentCluster this ∧
       m_parentClusterEnergy this' = m_parentClusterEnergy this ∧
       m_parentTrackEnergy this' = m_parentTrackEnergy this ∧
       m_nContactLayers this' = m_nContactLayers this ∧
       m_contactFraction this' = m_contactFraction this ∧
       m_coneFraction1 this' = m_coneFraction1 this ∧
       m_coneFraction2 this' = m_coneFraction2 this ∧
       m_coneFraction3 this' = m_coneFraction3 this ∧
       m_meanDistanceToHelix this' = m_meanDistanceToHelix this ∧
       m_closestDistanceToHelix this' = m_closestDistanceToHelix this).
Proof.
  intros compared cosOpeningAngle. unfold compared, HitDistanceComparison.
  fold cosOpeningAngle. split_and!.
  - by intros ->.
  - intros -> ->. done.
  - intros -> Hhits. rewrite bool_decide_eq_false_2 by done.
    eexists. split; [reflexivity|].
    destruct (daughter_loop_counts vector_minus GetMagnitudeSquared GetPositionVector
                (hits_in_order (GetOrderedCaloHitList pDaughterCluster))
                (GetOrderedCaloHitList pParentCluster)
                (f_mul closeHitDistance1 closeHitDistance1)
                (f_mul closeHitDistance2 closeHitDistance2)
                {| nCloseHits1 := 0; nCloseHits2 := 0; minDistanceSquared := f_max |})
      as [Hcount1 Hcount2].
    unfold GetFractionOfCloseHits, GetFractionOfCloseHits_return.
    rewrite bool_decide_eq_false_2 by done.
    split_and!; try reflexivity.
    + simpl. f_equal. f_equal. exact Hcount1.
    + simpl. f_equal. f_equal. exact Hcount2.
Qed.

Lemma HitDistanceComparison_agrees_with_GetFractionOfCloseHits_witness :
  ∃ this',
    HitDistanceComparison Exact.minus Exact.magnitude_squared Exact.position
      ExactMore.sqrt (2 # 1)%Q (5 # 1)%Q (1 # 2)%Q (λ _, (0, 0, 1)%Q)
      ExactMore.cos_opening_angle
      {| m_pDaughterCluster := {| GetNCaloHits := 2; GetOrderedCaloHitList := ∅ |};
         m_pParentCluster := {| GetNCaloHits := 1; GetOrderedCaloHitList := ∅ |};
         m_parentClusterEnergy := 0%Q; m_parentTrackEnergy := 0%Q;
         m_nContactLayers := 0; m_contactFraction := 0%Q;
         m_coneFraction1 := 0%Q; m_coneFraction2 := 0%Q; m_coneFraction3 := 0%Q;
         m_closeHitFraction1 := 0%Q; m_closeHitFraction2 := 0%Q;
         m_distanceToClosestHit := 0%Q; m_meanDistanceToHelix := 0%Q;
         m_closestDistanceToHelix := 0%Q |}
      {| GetNCaloHits := 2;
         GetOrderedCaloHitList := run [OpAddCaloHit 1 5; OpAddCaloHit 9 6] |}
      {| GetNCaloHits := 1; GetOrderedCaloHitList := run [OpAddCaloHit 2 5] |}
    = Returned this' ∧
    m_closeHitFraction1 this' =
      GetFractionOfCloseHits Exact.minus Exact.magnitude_squared Exact.position
        {| GetNCaloHits := 2;
           GetOrderedCaloHitList := run [OpAddCaloHit 1 5; OpAddCaloHit 9 6] |}
        {| GetNCaloHits := 1; GetOrderedCaloHitList := run [OpAddCaloHit 2 5] |}
        (2 # 1)%Q.
Proof.
  destruct (proj2 (proj2 (HitDistanceComparison_agrees_with_GetFractionOfCloseHits
    (H := Exact.Q_FloatOps) Exact.minus Exact.magnitude_squared Exact.position
    ExactMore.sqrt (2 # 1)%Q (5 # 1)%Q (1 # 2)%Q (λ _, (0, 0, 1)%Q)
    ExactMore.cos_opening_angle
    {| m_pDaughterCluster := {| GetNCaloHits := 2; GetOrderedCaloHitList := ∅ |};
       m_pParentCluster := {| GetNCaloHits := 1; GetOrderedCaloHitList := ∅ |};
       m_parentClusterEnergy := 0%Q; m_parentTrackEnergy := 0%Q;
       m_nContactLayers := 0; m_contactFraction := 0%Q;
       m_coneFraction1 := 0%Q; m_coneFraction2 := 0%Q; m_coneFraction3 := 0%Q;
       m_closeHitFraction1 := 0%Q; m_closeHitFraction2 := 0%Q;
       m_distanceToClosestHit := 0%Q; m_meanDistanceToHelix := 0%Q;
       m_closestDistanceToHelix := 0%Q |}
    {| GetNCaloHits := 2;
       GetOrderedCaloHitList := run [OpAddCaloHit 1 5; OpAddCaloHit 9 6] |}
    {| GetNCaloHits := 1; GetOrderedCaloHitList := run [OpAddCaloHit 2 5] |}))
    ltac:(vm_compute; reflexivity) ltac:(discriminate))
    as (this' & Hreturned & Hfraction1 & _).
  exists this'. split; [exact Hreturned|exact Hfraction1].
Defined.

(** ** The overloads of GetFractionOfHitsInCone *)

Section ConeOverloads.
Lemma set_iter_head_least (s : gset N) (first : N) (rest : list N) :
  StdSet.iter s = first :: rest →
  first ∈ s ∧ ∀ x, x ∈ s → first ≤ x.
Proof.
  intros Hiter. split.
  - apply set_iter_elem_of. rewrite Hiter. by left.
  - intros x Hx. apply set_iter_elem_of in Hx.
    pose proof (set_iter_sorted s) as Hsorted. rewrite Hiter in *.
    apply StronglySorted_cons in Hsorted as [Hall _].
    apply elem_of_cons in Hx as [->|Hx]; [lia|].
    rewrite Forall_forall in Hall. specialize (Hall x Hx). lia.
Qed.

Lemma set_iter_nil (s : gset N) : StdSet.iter s = [] ↔ s = ∅.
Proof.
  split.
  - intros Hiter. apply set_eq. intros x.
    rewrite <- set_iter_elem_of, Hiter. set_solver.
  - intros ->. unfold StdSet.iter. by rewrite elements_empty.
Qed.
End ConeOverloads.

(** X26. The overload of [GetFractionOfHitsInCone] that takes two clusters
    uses, when the second cluster has associated tracks, the track with the
    lowest address among them, and is then the overload for that track. The
    overload for a track forms the cone direction before it looks at the
    cluster: for a cluster that reports no hit it returns zero when the
    momentum has a unit vector, and throws what [GetUnitVector] throws
    otherwise. *)
Theorem GetFractionOfHitsInCone_overloads
    {float : Type} `{FloatOps float} {CartesianVector : Type}
    (vector_minus : CartesianVector → CartesianVector → CartesianVector)
    (GetDotProduct : CartesianVector → CartesianVector → float)
    (GetUnitVector : CartesianVector → Outcome CartesianVector)
    (GetPositionVector : N → CartesianVector)
    (GetAssociatedTrackList : Cluster → gset N)
    (GetShowerStartLayer : Cluster → Outcome N)
    (GetCentroid : Cluster → N → Outcome CartesianVector)
    (GetTrackStateAtECalPosition GetTrackStateAtECalMomentum : N → CartesianVector)
    (pClusterI pClusterJ : Cluster) (coneCosineHalfAngle : float) :
  (GetAssociatedTrackList pClusterJ ≠ ∅ →
     ∃ pTrack,
       pTrack ∈ GetAssociatedTrackList pClusterJ ∧
       (∀ other, other ∈ GetAssociatedTrackList pClusterJ → pTrack ≤ other) ∧
       GetFractionOfHitsInCone_cluster vector_minus GetDotProduct GetUnitVector
         GetPositionVector GetAssociatedTrackList GetShowerStartLayer GetCentroid
         GetTrackStateAtECalPosition GetTrackStateAtECalMomentum
         pClusterI pClusterJ coneCosineHalfAngle
       = GetFractionOfHitsInCone_track vector_minus GetDotProduct GetUnitVector
           GetPositionVector GetTrackStateAtECalPosition GetTrackStateAtECalMomentum
           pClusterI pTrack coneCosineHalfAngle) ∧
  (∀ pTrack, GetNCaloHits pClusterI = 0 →
     GetFractionOfHitsInCone_track vector_minus GetDotProduct GetUnitVector
       GetPositionVector GetTrackStateAtECalPosition GetTrackStateAtECalMomentum
       pClusterI pTrack coneCosineHalfAngle
     = match GetUnitVector (GetTrackStateAtECalMomentum pTrack) with
       | Thrown statusCode => Thrown statusCode
       | Returned _ => Returned f_zero
       end).
Proof.
  split.
  - intros Htracks. unfold GetFractionOfHitsInCone_cluster.
    destruct (StdSet.iter (GetAssociatedTrackList pClusterJ)) as [|pTrack rest] eqn:Hiter.
    { by apply set_iter_nil in Hiter. }
    destruct (set_iter_head_least _ _ _ Hiter) as [Hin Hleast].
    exists pTrack. split_and!; done.
  - intros pTrack Hzero. unfold GetFractionOfHitsInCone_track.
    destruct (GetUnitVector _); [|done].
    unfold GetFractionOfHitsInCone, GetFractionOfHitsInCone_return.
    by rewrite Hzero.
Qed.
